(** * EventDispatcher (egret-core, src/egret/events/EventDispatcher.ts)

    A shallow embedding of the [ns_egret.EventDispatcher] class and the
    properties of its listener registry and of its notification loop.

    Conventions of the embedding.
    - The two open objects [_eventsMap] and [_captureEventsMap] are finite
      maps from the type key to the bucket (a JavaScript array, here a list
      of bindings): these are their own properties.  Both are created by
      [{}], so a read [eventMap[type]] that finds no own property goes on to
      [Object.prototype]; [get_property] is that read.
    - Function objects and other objects are compared by reference ([===]),
      so a listener is its reference; what the function does when applied is
      given by a table [call], a parameter of the notification code.
    - Mutation is explicit state passing: every method returns the new
      state of the objects it writes.
    - The [DEBUG] hook at the head of [addEventListener] is a development
      check of the arguments and is switched off here ([DEBUG] falsy). *)

From Stdlib Require Import ZArith Bool.
From stdpp Require Import gmap strings list fin_maps.

(** ** Values and bindings *)

(** References to objects and to function objects. *)
Definition Ref := nat.
Definition Fn := nat.

(** The values that travel through [thisObject] and [data] (type [any]). *)
Inductive Value : Type :=
  | VUndefined
  | VNull
  | VBool (b : bool)
  | VNum (z : Z)
  | VStr (s : string)
  | VObj (r : Ref).

#[global] Instance Value_eq_dec : EqDecision Value.
Proof. solve_decision. Defined.

(** The object literal [{listener, thisObject, priority}] stored in a bucket. *)
Record EventBin : Type := mkBin {
  listener : Fn;
  thisObject : Value;
  priority : Z
}.

#[global] Instance EventBin_eq_dec : EqDecision EventBin.
Proof. solve_decision. Defined.

(** ** The dispatcher object *)

Record EventDispatcher : Type := mkDispatcher {
  target : Ref;
  _eventsMap : gmap string (list EventBin);
  _captureEventsMap : gmap string (list EventBin);
  _isUseCapture : bool
}.

(** [constructor(target = null)]: [self] is the reference of the object under
    construction; a null delegate makes the dispatcher its own target. *)
Definition constructor (self : Ref) (delegate : option Ref) : EventDispatcher :=
  {| target := match delegate with Some t => t | None => self end;
     _eventsMap := ∅;
     _captureEventsMap := ∅;
     _isUseCapture := false |}.

(** [useCapture ? this._captureEventsMap : this._eventsMap] *)
Definition select_map (d : EventDispatcher) (useCapture : bool)
  : gmap string (list EventBin) :=
  if useCapture then _captureEventsMap d else _eventsMap d.

(** Writing through the alias [eventMap] updates the selected field. *)
Definition store_map (d : EventDispatcher) (useCapture : bool)
    (m : gmap string (list EventBin)) : EventDispatcher :=
  if useCapture
  then {| target := target d; _eventsMap := _eventsMap d;
          _captureEventsMap := m; _isUseCapture := _isUseCapture d |}
  else {| target := target d; _eventsMap := m;
          _captureEventsMap := _captureEventsMap d;
          _isUseCapture := _isUseCapture d |}.

(** ** Completions *)

(** A call either returns or throws.  The dispatcher's own code can raise
    two exceptions: the [ReferenceError] of reading an identifier that no
    enclosing scope binds, and the [TypeError] of reading a property of
    [undefined] or of calling a property that is not a function. *)
Inductive Completion (A : Type) : Type :=
  | Return (a : A)
  | ReferenceError (name : string)
  | TypeError.
Arguments Return {A} a.
Arguments ReferenceError {A} name.
Arguments TypeError {A}.

(** ** Reading a type key *)

(** What the code can see of a member of [Object.prototype]: a function,
    whose [length] is its number of parameters, or an object without a
    [length].  Neither has indexed elements, [push] or [splice], and both
    are truthy. *)
Inductive Inherited : Type :=
  | InheritedFunction (arity : nat)
  | InheritedObject.

(** [member.length]: a number, or [undefined]. *)
Definition inherited_length (member : Inherited) : option nat :=
  match member with
  | InheritedFunction arity => Some arity
  | InheritedObject => None
  end.

(** The members of [Object.prototype] (ECMAScript 5.1, 15.2.4 and Annex B,
    with [__proto__] and the four legacy accessor methods). *)
Definition Object_prototype_members : list (string * Inherited) :=
  [ ("constructor", InheritedFunction 1);
    ("toString", InheritedFunction 0);
    ("toLocaleString", InheritedFunction 0);
    ("valueOf", InheritedFunction 0);
    ("hasOwnProperty", InheritedFunction 1);
    ("isPrototypeOf", InheritedFunction 1);
    ("propertyIsEnumerable", InheritedFunction 1);
    ("__defineGetter__", InheritedFunction 2);
    ("__defineSetter__", InheritedFunction 2);
    ("__lookupGetter__", InheritedFunction 1);
    ("__lookupSetter__", InheritedFunction 1);
    ("__proto__", InheritedObject) ].

Definition Object_prototype (key : string) : option Inherited :=
  (list_to_map Object_prototype_members : gmap string Inherited) !! key.
Arguments Object_prototype : simpl never.

(** The value of [eventMap[key]]. *)
Inductive Property : Type :=
  | Undefined
  | Array (list : list EventBin)
  | Inherit (member : Inherited).

Definition get_property (eventMap : gmap string (list EventBin)) (key : string)
  : Property :=
  match eventMap !! key with
  | Some list => Array list
  | None =>
      match Object_prototype key with
      | Some member => Inherit member
      | None => Undefined
      end
  end.

(** ** addEventListener *)

(** [list.splice(i, 0, x)] *)
Definition splice_in {A : Type} (i : nat) (x : A) (l : list A) : list A :=
  take i l ++ x :: drop i l.

(** The [for] loop of [addEventListener], from index [i] on, over the
    remaining elements.  [None] is the early [return] on a binding with the
    same listener; otherwise the final value of [insertIndex]. *)
Fixpoint add_scan (rest : list EventBin) (i : Z) (fn : Fn) (prio : Z)
    (insertIndex : Z) : option Z :=
  match rest with
  | [] => Some insertIndex
  | bin :: rest' =>
      if decide (listener bin = fn) then None
      else
        add_scan rest' (i + 1) fn prio
          (if (insertIndex =? -1)%Z && (priority bin <=? prio)%Z
           then i else insertIndex)
  end.

(** The end of [addEventListener]: [splice] at [insertIndex], or [push];
    the array is the one stored under the key. *)
Definition add_insert (d : EventDispatcher) (type : string) (useCapture : bool)
    (list : list EventBin) (insertIndex : Z) (eventBin : EventBin)
  : EventDispatcher :=
  let list' :=
    if negb (insertIndex =? -1)%Z
    then splice_in (Z.to_nat insertIndex) eventBin list
    else list ++ [eventBin] in
  store_map d useCapture (<[type := list']> (select_map d useCapture)).

(** [addEventListener]: how the call ends and the state it leaves.
    - [eventMap[type]] is an array: the loop, which may return early, then
      [splice] or [push].
    - It is [undefined]: a new array is stored and the binding pushed.
    - It is a member of [Object.prototype], which is truthy: the [if] takes
      the loop.  For a function with parameters [list[0]] is [undefined]
      and [bin.listener] throws; otherwise the loop does not run,
      [insertIndex] stays -1 and [list.push] is not a function.  Nothing
      has been written when the error is thrown. *)
Definition addEventListener_run (d : EventDispatcher) (type : string) (fn : Fn)
    (thisObj : Value) (useCapture : bool) (prio : Z)
  : Completion unit * EventDispatcher :=
  let eventMap := select_map d useCapture in
  let eventBin :=
    {| listener := fn; thisObject := thisObj; priority := prio |} in
  match get_property eventMap type with
  | Array list =>
      match add_scan list 0 fn prio (-1) with
      | None => (Return tt, d)
      | Some insertIndex =>
          (Return tt, add_insert d type useCapture list insertIndex eventBin)
      end
  | Undefined => (Return tt, add_insert d type useCapture [] (-1) eventBin)
  | Inherit member =>
      match inherited_length member with
      | Some (S _) => (TypeError, d)
      | _ => (TypeError, d)
      end
  end.

(** The dispatcher after the call, and the completion of the call. *)
Definition addEventListener (d : EventDispatcher) (type : string) (fn : Fn)
    (thisObj : Value) (useCapture : bool) (prio : Z) : EventDispatcher :=
  (addEventListener_run d type fn thisObj useCapture prio).2.

Definition addEventListener_completion (d : EventDispatcher) (type : string)
    (fn : Fn) (thisObj : Value) (useCapture : bool) (prio : Z)
  : Completion unit :=
  (addEventListener_run d type fn thisObj useCapture prio).1.

(** ** removeEventListener *)

(** The [for] loop of [removeEventListener]: the index at which it breaks. *)
Fixpoint remove_scan (rest : list EventBin) (i : nat) (fn : Fn) : option nat :=
  match rest with
  | [] => None
  | bin :: rest' =>
      if decide (listener bin = fn) then Some i
      else remove_scan rest' (S i) fn
  end.

(** [removeEventListener]: how the call ends and the state it leaves.
    - [eventMap[type]] is [undefined]: the early return.
    - It is an array: [splice(i, 1)] at the index where the loop breaks,
      then the key is deleted when the array has length 0.
    - It is a member of [Object.prototype]: for a function with parameters
      [list[0]] is [undefined] and [bin.listener] throws; for a function
      without parameters the loop does not run and [delete] of a key that
      is not an own property does nothing; for an object without [length]
      neither the loop nor the [delete] runs. *)
Definition removeEventListener_run (d : EventDispatcher) (type : string)
    (fn : Fn) (useCapture : bool) : Completion unit * EventDispatcher :=
  let eventMap := select_map d useCapture in
  match get_property eventMap type with
  | Undefined => (Return tt, d)
  | Array list =>
      let list' := match remove_scan list 0 fn with
                   | Some i => delete i list
                   | None => list
                   end in
      if (length list' =? 0)%nat
      then (Return tt, store_map d useCapture (delete type eventMap))
      else (Return tt, store_map d useCapture (<[type := list']> eventMap))
  | Inherit member =>
      match inherited_length member with
      | Some (S _) => (TypeError, d)
      | Some 0 => (Return tt, d)
      | None => (Return tt, d)
      end
  end.

Definition removeEventListener (d : EventDispatcher) (type : string) (fn : Fn)
    (useCapture : bool) : EventDispatcher :=
  (removeEventListener_run d type fn useCapture).2.

Definition removeEventListener_completion (d : EventDispatcher) (type : string)
    (fn : Fn) (useCapture : bool) : Completion unit :=
  (removeEventListener_run d type fn useCapture).1.

(** ** hasEventListener *)

(** Truthiness of [eventMap[type]]: an array is truthy even when it is
    empty, and so is a member of [Object.prototype]; a missing property is
    [undefined]. *)
Definition truthy_property (p : Property) : bool :=
  match p with Undefined => false | Array _ => true | Inherit _ => true end.

Definition hasEventListener (d : EventDispatcher) (type : string) : bool :=
  truthy_property (get_property (_eventsMap d) type)
  || truthy_property (get_property (_captureEventsMap d) type).

(** The same for the own properties alone. *)
Definition truthy (o : option (list EventBin)) : bool :=
  match o with Some _ => true | None => false end.

(** The key names a member of [Object.prototype]. *)
Definition is_inherited (key : string) : bool :=
  match Object_prototype key with Some _ => true | None => false end.

(** A read of the key that finds no own property ends on the prototype. *)
Definition reaches_prototype (found : option (list EventBin)) (key : string)
  : bool :=
  match found with Some _ => false | None => is_inherited key end.
Arguments reaches_prototype : simpl never.

(** ** Events *)

(** Modelled from the spec: the [Event] class is declared outside this file
    (only its uses are here).  The record has the fields of the spec's data
    model under the names the dispatcher uses for them ([_type], [_bubbles],
    [data], [_target], [_eventPhase], [_isPropagationImmediateStopped]); the
    current target and the two remaining flags are named after those. *)
Record Event : Type := mkEvent {
  _type : string;
  _bubbles : bool;
  data : Value;
  _target : option Ref;
  _currentTarget : option Ref;
  _eventPhase : Z;
  _isPropagationStopped : bool;
  _isPropagationImmediateStopped : bool;
  _isDefaultPrevented : bool
}.

#[global] Instance Event_eq_dec : EqDecision Event.
Proof. solve_decision. Defined.

(** Field assignments [event._type = v], [event._bubbles = v],
    [event.data = v] and [event._target = v]. *)
Definition set_type (e : Event) (v : string) : Event :=
  mkEvent v (_bubbles e) (data e) (_target e) (_currentTarget e) (_eventPhase e)
    (_isPropagationStopped e) (_isPropagationImmediateStopped e)
    (_isDefaultPrevented e).

Definition set_bubbles (e : Event) (v : bool) : Event :=
  mkEvent (_type e) v (data e) (_target e) (_currentTarget e) (_eventPhase e)
    (_isPropagationStopped e) (_isPropagationImmediateStopped e)
    (_isDefaultPrevented e).

Definition set_data (e : Event) (v : Value) : Event :=
  mkEvent (_type e) (_bubbles e) v (_target e) (_currentTarget e) (_eventPhase e)
    (_isPropagationStopped e) (_isPropagationImmediateStopped e)
    (_isDefaultPrevented e).

Definition set_target (e : Event) (v : Ref) : Event :=
  mkEvent (_type e) (_bubbles e) (data e) (Some v) (_currentTarget e)
    (_eventPhase e) (_isPropagationStopped e)
    (_isPropagationImmediateStopped e) (_isDefaultPrevented e).

(** Modelled from the spec: [Event._reset], absent from the sources.  Spec:
    "Reset the event's propagation and default-prevention flags to false";
    nothing else of the event changes. *)
Definition _reset (e : Event) : Event :=
  mkEvent (_type e) (_bubbles e) (data e) (_target e) (_currentTarget e)
    (_eventPhase e) false false false.

(** Modelled from the spec: [Event._setCurrentTarget], absent from the
    sources.  Spec: "Stamp event.currentTarget = this.declaredTarget". *)
Definition _setCurrentTarget (e : Event) (v : Ref) : Event :=
  mkEvent (_type e) (_bubbles e) (data e) (_target e) (Some v) (_eventPhase e)
    (_isPropagationStopped e) (_isPropagationImmediateStopped e)
    (_isDefaultPrevented e).

(** Modelled from the spec: [Event.isDefaultPrevented], absent from the
    sources; it reads the default-prevention flag. *)
Definition isDefaultPrevented (e : Event) : bool := _isDefaultPrevented e.

(** Modelled from the spec: the two ways listener code sets the flags
    ("set by listener code during dispatch"). *)
Definition preventDefault (e : Event) : Event :=
  mkEvent (_type e) (_bubbles e) (data e) (_target e) (_currentTarget e)
    (_eventPhase e) (_isPropagationStopped e)
    (_isPropagationImmediateStopped e) true.

Definition stopImmediatePropagation (e : Event) : Event :=
  mkEvent (_type e) (_bubbles e) (data e) (_target e) (_currentTarget e)
    (_eventPhase e) true true (_isDefaultPrevented e).

(** ** Notification *)

Section Notification.

(** [U] is the state of the program outside the dispatcher and the event
    (what closures and receivers hold).  [call fn this ev u] is
    [fn.apply(this, [ev])]: it may write the event and that state.
    Listeners that throw, and listeners that register or remove listeners
    on the dispatcher which is notifying them (the loop reads the live
    array), are outside this model. *)
Context {U : Type}.
Variable call : Fn -> Value -> Event -> U -> Event * U.

(** What a dispatch leaves behind: the completion, the event object and
    the outside state as written so far, and (as a ghost record) the
    bindings whose listener was applied, in order. *)
Record Outcome (A : Type) : Type := mkOutcome {
  result : Completion A;
  event_after : Event;
  user_after : U;
  invoked : list EventBin
}.
Arguments mkOutcome {A} _ _ _ _.
Arguments result {A} _.
Arguments event_after {A} _.
Arguments user_after {A} _.
Arguments invoked {A} _.

(** The [for] loop of [_notifyListener] over the remaining bindings. *)
Fixpoint notify_loop (rest : list EventBin) (event : Event) (u : U)
    (done_ : list EventBin) : Event * U * list EventBin :=
  match rest with
  | [] => (event, u, done_)
  | eventBin :: rest' =>
      let '(event', u') := call (listener eventBin) (thisObject eventBin) event u in
      if _isPropagationImmediateStopped event'
      then (event', u', done_ ++ [eventBin])
      else notify_loop rest' event' u' (done_ ++ [eventBin])
  end.

(** [_notifyListener].  The identifier [type] on the right of
    [eventMap[type]] is free in the method: it is neither a parameter nor
    a local nor a member access on [event].  Its binding is therefore an
    input here: [None] when no enclosing scope declares it (reading it
    throws), [Some k] when one does, [k] being the property key its value
    converts to.  When the read ends on a member of [Object.prototype] the
    early return is not taken: for a function with parameters [list[0]] is
    [undefined] and [eventBin.listener] throws, otherwise the loop does not
    run and the method returns the negation of the flag as it is. *)
Definition _notifyListener (type : option string) (d : EventDispatcher)
    (event : Event) (u : U) : Outcome bool :=
  let eventMap := if (_eventPhase event =? 1)%Z
                  then _captureEventsMap d else _eventsMap d in
  match type with
  | None => mkOutcome (ReferenceError "type") event u []
  | Some key =>
      match get_property eventMap key with
      | Undefined => mkOutcome (Return true) event u []
      | Array list =>
          let '(event', u', done_) := notify_loop list event u [] in
          mkOutcome (Return (negb (isDefaultPrevented event'))) event' u' done_
      | Inherit member =>
          match inherited_length member with
          | Some (S _) => mkOutcome TypeError event u []
          | _ => mkOutcome (Return (negb (isDefaultPrevented event))) event u []
          end
      end
  end.

(** [dispatchEvent] *)
Definition dispatchEvent (type : option string) (d : EventDispatcher)
    (event : Event) (u : U) : Outcome bool :=
  let event1 := _reset event in
  let event2 := set_target event1 (target d) in
  let event3 := _setCurrentTarget event2 (target d) in
  _notifyListener type d event3 u.

(** [dispatchEventWith].  [shared] is the current state of the static
    [EventDispatcher.reuseEvent]; [event_after] of the outcome is its state
    when the call ends.  The parameter [type_] is the method's own [type];
    the free [type] of [_notifyListener] is not bound by it. *)
Definition dispatchEventWith (type : option string) (d : EventDispatcher)
    (type_ : string) (bubbles : bool) (data_ : Value)
    (shared : Event) (u : U) : Outcome unit :=
  let event := shared in
  let event := set_type event type_ in
  let event := set_bubbles event bubbles in
  let event := set_data event data_ in
  let o := dispatchEvent type d event u in
  mkOutcome
    (match result o with
     | Return _ => Return tt
     | ReferenceError n => ReferenceError n
     | TypeError => TypeError
     end)
    (event_after o) (user_after o) (invoked o).

End Notification.

Arguments mkOutcome {U A} _ _ _ _.
Arguments result {U A} _.
Arguments event_after {U A} _.
Arguments user_after {U A} _.
Arguments invoked {U A} _.

(** ** Reference definitions for the statements *)

(** The listeners of a bucket, in stored order. *)
Definition listeners (l : list EventBin) : list Fn := listener <$> l.

(** The insertion rule in words: the position of the first binding whose
    priority is at most [prio], if there is one. *)
Fixpoint first_le (l : list EventBin) (prio : Z) : option nat :=
  match l with
  | [] => None
  | bin :: l' =>
      if (priority bin <=? prio)%Z then Some 0
      else S <$> first_le l' prio
  end.

(** A registration into a bucket, in words: nothing when the listener is
    already in the bucket, otherwise the binding goes to the position
    [first_le] gives, or to the end. *)
Definition register (l : list EventBin) (b : EventBin) : list EventBin :=
  if decide (listener b ∈ listeners l) then l
  else match first_le l (priority b) with
       | Some j => splice_in j b l
       | None => l ++ [b]
       end.

(** Removal in words: the first binding with the listener goes. *)
Fixpoint remove_first (l : list EventBin) (fn : Fn) : list EventBin :=
  match l with
  | [] => []
  | bin :: l' =>
      if decide (listener bin = fn) then l' else bin :: remove_first l' fn
  end.

(** Priorities never increase along a bucket. *)
Fixpoint sorted_desc (l : list EventBin) : Prop :=
  match l with
  | [] => True
  | b :: l' => Forall (fun x => (priority x <= priority b)%Z) l' ∧ sorted_desc l'
  end.

(** The invariant of the registry: a bucket that exists is not empty and
    holds a listener at most once. *)
Definition bucket_ok (l : list EventBin) : Prop :=
  l ≠ [] ∧ NoDup (listeners l).

Definition map_ok (m : gmap string (list EventBin)) : Prop :=
  ∀ k l, m !! k = Some l → bucket_ok l.

Definition wf (d : EventDispatcher) : Prop :=
  map_ok (_eventsMap d) ∧ map_ok (_captureEventsMap d).

(** The states of a dispatcher that its interface produces. *)
Inductive reachable : EventDispatcher → Prop :=
  | reach_new self delegate : reachable (constructor self delegate)
  | reach_add d type fn thisObj useCapture prio :
      reachable d → reachable (addEventListener d type fn thisObj useCapture prio)
  | reach_remove d type fn useCapture :
      reachable d → reachable (removeEventListener d type fn useCapture).

(** The event as the first three statements of [dispatchEvent] leave it. *)
Definition stamped (d : EventDispatcher) (event : Event) : Event :=
  _setCurrentTarget (set_target (_reset event) (target d)) (target d).

(** [fn] has a binding in some bucket of the map. *)
Definition registered_in (m : gmap string (list EventBin)) (fn : Fn) : Prop :=
  ∃ k l, m !! k = Some l ∧ fn ∈ listeners l.

(** The number of bindings of [fn] in a bucket. *)
Definition count_listener (fn : Fn) (l : list EventBin) : nat :=
  length (filter (fun b => listener b = fn) l).

Section Runs.

Context {U : Type}.
Variable call : Fn -> Value -> Event -> U -> Event * U.

(** Applying the listeners of [l] one after the other, with no early exit. *)
Fixpoint run_all (l : list EventBin) (event : Event) (u : U) : Event * U :=
  match l with
  | [] => (event, u)
  | b :: l' =>
      let '(event', u') := call (listener b) (thisObject b) event u in
      run_all l' event' u'
  end.

(** No listener of [l], applied in turn, leaves the immediate-stop flag
    set when it returns. *)
Fixpoint quiet (l : list EventBin) (event : Event) (u : U) : bool :=
  match l with
  | [] => true
  | b :: l' =>
      let '(event', u') := call (listener b) (thisObject b) event u in
      negb (_isPropagationImmediateStopped event') && quiet l' event' u'
  end.

End Runs.

(** A call of one of the two methods that write the registry, and a
    sequence of such calls made on a dispatcher. *)
Inductive RegistryCall : Type :=
  | CallAdd (type : string) (fn : Fn) (thisObj : Value) (useCapture : bool)
      (prio : Z)
  | CallRemove (type : string) (fn : Fn) (useCapture : bool).

Definition do_call (d : EventDispatcher) (c : RegistryCall) : EventDispatcher :=
  match c with
  | CallAdd type fn thisObj useCapture prio =>
      addEventListener d type fn thisObj useCapture prio
  | CallRemove type fn useCapture => removeEventListener d type fn useCapture
  end.

Definition do_calls (d : EventDispatcher) (cs : list RegistryCall)
  : EventDispatcher :=
  foldl do_call d cs.

(** The type key and the phase flag a call addresses. *)
Definition call_type (c : RegistryCall) : string :=
  match c with CallAdd type _ _ _ _ => type | CallRemove type _ _ => type end.

Definition call_phase (c : RegistryCall) : bool :=
  match c with
  | CallAdd _ _ _ useCapture _ => useCapture
  | CallRemove _ _ useCapture => useCapture
  end.

(** The three ways a call ends for the bucket it addresses: nothing is
    written, the key is deleted, or the key holds a new array. *)
Inductive BucketWrite : Type :=
  | Untouched
  | KeyDeleted
  | KeySet (l : list EventBin).

Definition write_bucket (d : EventDispatcher) (useCapture : bool)
    (type : string) (w : BucketWrite) : EventDispatcher :=
  match w with
  | Untouched => d
  | KeyDeleted => store_map d useCapture (delete type (select_map d useCapture))
  | KeySet l => store_map d useCapture (<[type := l]> (select_map d useCapture))
  end.

(** What a call writes, from what its lookup finds. *)
Definition call_write (c : RegistryCall) (found : option (list EventBin))
  : BucketWrite :=
  match c with
  | CallAdd type fn thisObj _ prio =>
      if decide (fn ∈ listeners (default [] found)) then Untouched
      else if reaches_prototype found type then Untouched
      else KeySet (register (default [] found) (mkBin fn thisObj prio))
  | CallRemove _ fn _ =>
      match found with
      | None => Untouched
      | Some l => match remove_first l fn with
                  | [] => KeyDeleted
                  | l' => KeySet l'
                  end
      end
  end.

(** The bucket as the loops see it: the array, or nothing to iterate. *)
Definition bucket (d : EventDispatcher) (useCapture : bool) (type : string)
  : list EventBin :=
  default [] (select_map d useCapture !! type).

(** ** A small program to run the code on *)

(** Listeners by reference: [11] calls [preventDefault], [12] calls
    [stopImmediatePropagation], [13] calls both; any other function leaves
    the event alone.  The outside state counts the calls. *)
Definition sample_call (fn : Fn) (this : Value) (e : Event) (n : nat) : Event * nat :=
  match fn with
  | 11 => (preventDefault e, S n)
  | 12 => (stopImmediatePropagation e, S n)
  | 13 => (stopImmediatePropagation (preventDefault e), S n)
  | _ => (e, S n)
  end.


(** An event as a caller hands it to [dispatchEvent]. *)
Definition sample_event (type : string) (phase : Z) : Event :=
  {| _type := type; _bubbles := false; data := VNull;
     _target := None; _currentTarget := None; _eventPhase := phase;
     _isPropagationStopped := false; _isPropagationImmediateStopped := false;
     _isDefaultPrevented := false |}.

(** * Properties *)

Example add_then_has :
  hasEventListener (addEventListener (constructor 0 None) "x" 7 VNull false 0) "x" = true.
Proof. reflexivity. Qed.

Example add_remove_has :
  hasEventListener
    (removeEventListener
       (addEventListener (constructor 0 None) "x" 7 VNull false 0) "x" 7 false) "x"
  = false.
Proof. reflexivity. Qed.

Example notify_sample :
  let d := addEventListener (addEventListener (constructor 0 None) "x" 11 VNull false 0)
             "x" 7 VNull false 0 in
  let o := dispatchEvent sample_call (Some "x") d (sample_event "x" 2) 0 in
  result o = Return false ∧ listeners (invoked o) = [7; 11] ∧ user_after o = 2.
Proof. vm_compute. auto. Qed.

(** ** The registration loop *)

Lemma add_scan_dup (l : list EventBin) i fn prio ins :
  fn ∈ listeners l → add_scan l i fn prio ins = None.
Proof.
  revert i ins. induction l as [|b l IH]; intros i ins Hin; simpl in *.
  - by apply elem_of_nil in Hin.
  - case_decide as Hb; [done|].
    apply elem_of_cons in Hin as [Heq|Hin]; [by subst|].
    by apply IH.
Qed.

Lemma add_scan_fresh (l : list EventBin) i fn prio ins :
  (0 <= i)%Z → fn ∉ listeners l →
  add_scan l i fn prio ins =
    Some (if (ins =? -1)%Z
          then match first_le l prio with
               | Some j => (i + Z.of_nat j)%Z
               | None => (-1)%Z
               end
          else ins).
Proof.
  revert i ins. induction l as [|b l IH]; intros i ins Hi Hnin; simpl in *.
  - by destruct (ins =? -1)%Z eqn:E; [apply Z.eqb_eq in E; subst|].
  - apply not_elem_of_cons in Hnin as [Hne Hnin].
    case_decide as Hb; [by subst|].
    rewrite IH; [|lia|done]. f_equal.
    destruct (ins =? -1)%Z eqn:E; simpl.
    + destruct (priority b <=? prio)%Z eqn:Ep; simpl.
      * destruct (i =? -1)%Z eqn:Ei; [apply Z.eqb_eq in Ei; lia|lia].
      * rewrite E. destruct (first_le l prio) as [j|]; simpl; lia.
    + by rewrite E.
Qed.

(** ** Reads of a key *)

Lemma get_property_own (m : gmap string (list EventBin)) key l :
  m !! key = Some l → get_property m key = Array l.
Proof. unfold get_property. by intros ->. Qed.

Lemma get_property_plain (m : gmap string (list EventBin)) key :
  m !! key = None → Object_prototype key = None →
  get_property m key = Undefined.
Proof. unfold get_property. by intros -> ->. Qed.

Lemma get_property_inherited (m : gmap string (list EventBin)) key member :
  m !! key = None → Object_prototype key = Some member →
  get_property m key = Inherit member.
Proof. unfold get_property. by intros -> ->. Qed.

Lemma reaches_prototype_own (found : option (list EventBin)) key :
  Object_prototype key = None → reaches_prototype found key = false.
Proof. unfold reaches_prototype, is_inherited. intros ->. by destruct found. Qed.

Lemma truthy_get_property (m : gmap string (list EventBin)) key :
  truthy_property (get_property m key) = truthy (m !! key) || is_inherited key.
Proof.
  unfold get_property, is_inherited.
  destruct (m !! key); [done|]. by destruct (Object_prototype key).
Qed.

(** A registration throws exactly when its read ends on the prototype, and
    then it leaves the dispatcher as it was. *)
Lemma addEventListener_completion_cases d type fn thisObj useCapture prio :
  addEventListener_completion d type fn thisObj useCapture prio =
    if reaches_prototype (select_map d useCapture !! type) type
    then TypeError else Return tt.
Proof.
  unfold addEventListener_completion, addEventListener_run, get_property,
    reaches_prototype, is_inherited. simpl.
  destruct (select_map d useCapture !! type) as [l|]; simpl.
  - by destruct (add_scan l 0 fn prio (-1)).
  - destruct (Object_prototype type) as [member|]; [|done].
    by destruct (inherited_length member) as [[|n]|].
Qed.

Lemma addEventListener_inherited d type fn thisObj useCapture prio :
  reaches_prototype (select_map d useCapture !! type) type = true →
  addEventListener d type fn thisObj useCapture prio = d.
Proof.
  unfold addEventListener, addEventListener_run, get_property,
    reaches_prototype, is_inherited. simpl.
  destruct (select_map d useCapture !! type) as [l|]; [done|].
  destruct (Object_prototype type) as [member|]; [|done].
  by destruct (inherited_length member) as [[|n]|].
Qed.

(** The loop of [addEventListener] followed by [splice] or [push] is the
    registration rule [register], unless the read ends on the prototype. *)
Lemma addEventListener_register d type fn thisObj useCapture prio :
  addEventListener d type fn thisObj useCapture prio =
    let l := default [] (select_map d useCapture !! type) in
    if decide (fn ∈ listeners l) then d
    else if reaches_prototype (select_map d useCapture !! type) type then d
    else store_map d useCapture
           (<[type := register l (mkBin fn thisObj prio)]> (select_map d useCapture)).
Proof.
  destruct (reaches_prototype (select_map d useCapture !! type) type) eqn:Er.
  { rewrite addEventListener_inherited by done. simpl. by case_decide. }
  revert Er.
  unfold addEventListener, addEventListener_run, add_insert, register,
    get_property, reaches_prototype, is_inherited. simpl.
  destruct (select_map d useCapture !! type) as [l|] eqn:El; simpl.
  - intros _. case_decide as Hin.
    + by rewrite add_scan_dup.
    + rewrite add_scan_fresh; [|lia|done]. simpl.
      destruct (first_le l prio) as [j|]; simpl; [|done].
      destruct (0 + Z.of_nat j =? -1)%Z eqn:E; [apply Z.eqb_eq in E; lia|].
      by rewrite Z.add_0_l, Nat2Z.id.
  - by destruct (Object_prototype type).
Qed.

(** ** The removal loop *)

Lemma remove_scan_shift (l : list EventBin) i fn :
  remove_scan l i fn = Nat.add i <$> remove_scan l 0 fn.
Proof.
  revert i. induction l as [|b l IH]; intros i; simpl; [done|].
  case_decide; simpl; [by rewrite Nat.add_0_r|].
  rewrite (IH (S i)), (IH 1).
  destruct (remove_scan l 0 fn); simpl; [f_equal; lia|done].
Qed.

Lemma remove_scan_delete (l : list EventBin) fn :
  match remove_scan l 0 fn with
  | Some i => delete i l
  | None => l
  end = remove_first l fn.
Proof.
  induction l as [|b l IH]; simpl; [done|].
  case_decide; [done|].
  rewrite remove_scan_shift.
  destruct (remove_scan l 0 fn); simpl in *; by f_equal.
Qed.

Lemma removeEventListener_remove_first d type fn useCapture :
  removeEventListener d type fn useCapture =
    match select_map d useCapture !! type with
    | None => d
    | Some l =>
        match remove_first l fn with
        | [] => store_map d useCapture (delete type (select_map d useCapture))
        | l' => store_map d useCapture (<[type := l']> (select_map d useCapture))
        end
    end.
Proof.
  unfold removeEventListener, removeEventListener_run, get_property. simpl.
  destruct (select_map d useCapture !! type) as [l|].
  - rewrite remove_scan_delete. by destruct (remove_first l fn).
  - destruct (Object_prototype type) as [member|]; [|done].
    by destruct (inherited_length member) as [[|n]|].
Qed.

(** A removal throws exactly when its read ends on a function of the
    prototype that has parameters. *)
Lemma removeEventListener_completion_cases d type fn useCapture :
  removeEventListener_completion d type fn useCapture =
    match select_map d useCapture !! type, Object_prototype type with
    | None, Some (InheritedFunction (S _)) => TypeError
    | _, _ => Return tt
    end.
Proof.
  unfold removeEventListener_completion, removeEventListener_run, get_property.
  simpl. destruct (select_map d useCapture !! type) as [l|]; simpl.
  - by destruct (length _ =? 0)%nat.
  - destruct (Object_prototype type) as [[[|n]|]|]; done.
Qed.

Lemma remove_first_fresh (l : list EventBin) fn :
  fn ∉ listeners l → remove_first l fn = l.
Proof.
  induction l as [|b l IH]; simpl; [done|]. intros Hn.
  apply not_elem_of_cons in Hn as [Hne Hn].
  case_decide; [by subst|]. by rewrite IH.
Qed.

Lemma remove_first_split (l : list EventBin) fn :
  fn ∈ listeners l →
  ∃ l1 b l2, l = l1 ++ b :: l2 ∧ listener b = fn ∧ (fn ∉ listeners l1)
             ∧ remove_first l fn = l1 ++ l2.
Proof.
  induction l as [|b l IH]; simpl; intros Hin.
  - by apply elem_of_nil in Hin.
  - case_decide as Hb.
    + exists [], b, l. repeat split; [done|]. apply not_elem_of_nil.
    + apply elem_of_cons in Hin as [Heq|Hin]; [by subst|].
      destruct (IH Hin) as (l1 & b' & l2 & -> & Hb' & Hn & Hr).
      exists (b :: l1), b', l2. rewrite Hr. repeat split; [done|].
      simpl. apply not_elem_of_cons. split; [congruence|done].
Qed.

(** ** Reading and writing the selected map *)

Lemma select_store d c m : select_map (store_map d c m) c = m.
Proof. by destruct c. Qed.

Lemma select_store_other d c m :
  select_map (store_map d c m) (negb c) = select_map d (negb c).
Proof. by destruct c. Qed.

Lemma store_select d c : store_map d c (select_map d c) = d.
Proof. by destruct d, c. Qed.

Lemma target_store d c m : target (store_map d c m) = target d.
Proof. by destruct c. Qed.

Lemma store_insert_id d c type l :
  select_map d c !! type = Some l →
  store_map d c (<[type := l]> (select_map d c)) = d.
Proof. intros H. rewrite insert_id; [apply store_select|done]. Qed.

(** ** Where a registration lands *)

Lemma first_le_Some (l : list EventBin) prio j :
  first_le l prio = Some j →
  ∃ l1 b l2, l = l1 ++ b :: l2 ∧ length l1 = j
             ∧ Forall (fun x => (prio < priority x)%Z) l1
             ∧ (priority b <= prio)%Z.
Proof.
  revert j. induction l as [|a l IH]; intros j; simpl; [done|].
  destruct (priority a <=? prio)%Z eqn:E.
  - intros [= <-]. exists [], a, l. split_and!; [done|done|constructor|lia].
  - destruct (first_le l prio) as [k|]; simpl; [|done].
    intros [= <-]. destruct (IH k eq_refl) as (l1 & b & l2 & -> & Hlen & Hall & Hb).
    exists (a :: l1), b, l2. split_and!; simpl; [done|lia| |done].
    constructor; [lia|done].
Qed.

Lemma first_le_None (l : list EventBin) prio :
  first_le l prio = None → Forall (fun x => (prio < priority x)%Z) l.
Proof.
  induction l as [|a l IH]; simpl; [constructor|].
  destruct (priority a <=? prio)%Z eqn:E; [done|].
  destruct (first_le l prio); simpl; [done|].
  intros _. constructor; [lia|by apply IH].
Qed.

(** A new binding is placed after the bindings of strictly higher priority
    that head the bucket and before the first one of lower or equal
    priority. *)
Lemma register_fresh_split (l : list EventBin) b :
  listener b ∉ listeners l →
  ∃ l1 l2, l = l1 ++ l2 ∧ register l b = l1 ++ b :: l2
           ∧ Forall (fun x => (priority b < priority x)%Z) l1
           ∧ match l2 with
             | [] => True
             | y :: _ => (priority y <= priority b)%Z
             end.
Proof.
  intros Hn. unfold register. case_decide; [done|].
  destruct (first_le l (priority b)) as [j|] eqn:E.
  - destruct (first_le_Some _ _ _ E) as (l1 & y & l2 & -> & Hlen & Hall & Hy).
    exists l1, (y :: l2). split_and!; [done| |done|done].
    unfold splice_in. subst j.
    by rewrite take_app_length, drop_app_length.
  - exists l, []. rewrite app_nil_r. split_and!; [done|done| |done].
    by apply first_le_None.
Qed.

Lemma register_dup (l : list EventBin) b :
  listener b ∈ listeners l → register l b = l.
Proof. intros H. unfold register. by case_decide. Qed.

Lemma register_listener_in (l : list EventBin) b :
  listener b ∈ listeners (register l b).
Proof.
  destruct (decide (listener b ∈ listeners l)) as [Hin|Hn].
  - by rewrite register_dup.
  - destruct (register_fresh_split l b Hn) as (l1 & l2 & _ & -> & _).
    unfold listeners. rewrite fmap_app, elem_of_app. right. simpl.
    apply elem_of_cons. by left.
Qed.

Lemma register_nonempty (l : list EventBin) b : register l b ≠ [].
Proof.
  intros H. pose proof (register_listener_in l b) as Hin.
  rewrite H in Hin. by apply elem_of_nil in Hin.
Qed.

Lemma register_NoDup (l : list EventBin) b :
  NoDup (listeners l) → NoDup (listeners (register l b)).
Proof.
  intros Hnd. destruct (decide (listener b ∈ listeners l)) as [Hin|Hn].
  - by rewrite register_dup.
  - destruct (register_fresh_split l b Hn) as (l1 & l2 & -> & -> & _).
    unfold listeners in *. rewrite fmap_app in *. simpl.
    apply NoDup_app in Hnd as (H1 & H12 & H2).
    rewrite elem_of_app in Hn.
    apply NoDup_app. split; [done|]. split.
    + intros x Hx. apply not_elem_of_cons. split; [|by apply H12].
      intros ->. apply Hn. by left.
    + apply NoDup_cons. split; [|done]. intros Hx. apply Hn. by right.
Qed.

Lemma sorted_desc_app (l1 l2 : list EventBin) :
  sorted_desc (l1 ++ l2) ↔
  sorted_desc l1 ∧ sorted_desc l2
  ∧ Forall (fun x => Forall (fun y => (priority y <= priority x)%Z) l2) l1.
Proof.
  induction l1 as [|a l1 IH]; simpl.
  - split; [intros H; split_and!; [done|done|constructor]|by intros (_ & H & _)].
  - rewrite Forall_app, IH, Forall_cons. tauto.
Qed.

(** Registration keeps the priorities in descending order... *)
Lemma register_sorted (l : list EventBin) b :
  sorted_desc l → sorted_desc (register l b).
Proof.
  intros Hs. destruct (decide (listener b ∈ listeners l)) as [Hin|Hn].
  - by rewrite register_dup.
  - destruct (register_fresh_split l b Hn) as (l1 & l2 & -> & -> & Hhi & Hlo).
    apply sorted_desc_app in Hs as (Hs1 & Hs2 & H12).
    assert (Forall (fun y => (priority y <= priority b)%Z) l2) as Hl2.
    { destruct l2 as [|y l2]; [constructor|]. simpl in Hs2.
      destruct Hs2 as [Hy _]. constructor; [done|].
      eapply Forall_impl; [exact Hy|]. simpl. intros; lia. }
    apply sorted_desc_app. split; [done|]. split; [by split|].
    rewrite Forall_forall in Hhi, H12. apply Forall_forall. intros x Hx.
    constructor; [specialize (Hhi x Hx); simpl in Hhi; lia|by apply H12].
Qed.

(** ... and puts the new binding in front of every binding of the same
    priority that the bucket already holds. *)
Lemma register_before_equal_priority (l : list EventBin) b :
  sorted_desc l → listener b ∉ listeners l →
  ∃ l1 l2, l = l1 ++ l2 ∧ register l b = l1 ++ b :: l2
           ∧ Forall (fun x => (priority b < priority x)%Z) l1
           ∧ Forall (fun y => (priority y <= priority b)%Z) l2.
Proof.
  intros Hs Hn.
  destruct (register_fresh_split l b Hn) as (l1 & l2 & -> & Hr & Hhi & Hlo).
  exists l1, l2. split_and!; [done|done|done|].
  apply sorted_desc_app in Hs as (_ & Hs2 & _).
  destruct l2 as [|y l2]; [constructor|]. simpl in Hs2.
  destruct Hs2 as [Hy _]. constructor; [done|].
  eapply Forall_impl; [exact Hy|]. simpl. intros; lia.
Qed.

(** ** The registry invariant *)

Lemma remove_first_incl (l : list EventBin) fn x :
  x ∈ listeners (remove_first l fn) → x ∈ listeners l.
Proof.
  induction l as [|b l IH]; simpl; [done|].
  case_decide; intros Hx; apply elem_of_cons; [by right|].
  apply elem_of_cons in Hx as [->|Hx]; [by left|right; by apply IH].
Qed.

Lemma remove_first_NoDup (l : list EventBin) fn :
  NoDup (listeners l) → NoDup (listeners (remove_first l fn)).
Proof.
  induction l as [|b l IH]; simpl; [done|].
  intros [Hb Hl]%NoDup_cons. case_decide; [done|]. simpl.
  apply NoDup_cons. split; [|by apply IH].
  intros Hx. apply Hb. by eapply remove_first_incl.
Qed.

Lemma remove_first_gone (l : list EventBin) fn :
  NoDup (listeners l) → fn ∉ listeners (remove_first l fn).
Proof.
  induction l as [|b l IH]; simpl; [intros _; apply not_elem_of_nil|].
  intros [Hb Hl]%NoDup_cons. case_decide as E; [by subst|]. simpl.
  apply not_elem_of_cons. split; [congruence|by apply IH].
Qed.

Lemma count_listener_absent (l : list EventBin) fn :
  fn ∉ listeners l → count_listener fn l = 0.
Proof.
  unfold count_listener. induction l as [|b l IH]; simpl; [done|].
  intros [Hne Hn]%not_elem_of_cons.
  rewrite filter_cons_False; [by apply IH|congruence].
Qed.

Lemma count_listener_NoDup (l : list EventBin) fn :
  NoDup (listeners l) → fn ∈ listeners l → count_listener fn l = 1.
Proof.
  induction l as [|b l IH]; simpl.
  - intros _ H. by apply elem_of_nil in H.
  - intros [Hb Hl]%NoDup_cons Hin. unfold count_listener in *.
    destruct (decide (listener b = fn)) as [E|E].
    + rewrite filter_cons_True; [|done]. simpl. f_equal.
      apply (count_listener_absent l fn). by subst.
    + rewrite filter_cons_False; [|done].
      apply elem_of_cons in Hin as [?|Hin]; [congruence|by apply IH].
Qed.

Lemma wf_constructor self delegate : wf (constructor self delegate).
Proof. split; intros k l H; simpl in H; by rewrite lookup_empty in H. Qed.

Lemma map_ok_insert m type l :
  map_ok m → bucket_ok l → map_ok (<[type := l]> m).
Proof.
  intros Hm Hl k l' H. destruct (decide (type = k)) as [->|Hne].
  - rewrite lookup_insert_eq in H. by injection H as <-.
  - rewrite lookup_insert_ne in H; [by eapply Hm|done].
Qed.

Lemma map_ok_delete m type : map_ok m → map_ok (delete type m).
Proof.
  intros Hm k l' H. destruct (decide (type = k)) as [->|Hne].
  - by rewrite lookup_delete_eq in H.
  - rewrite lookup_delete_ne in H; [by eapply Hm|done].
Qed.

Lemma wf_select d c : wf d → map_ok (select_map d c).
Proof. intros [H1 H2]. by destruct c. Qed.

Lemma wf_store d c m : wf d → map_ok m → wf (store_map d c m).
Proof. intros [H1 H2] Hm. by destruct c; split. Qed.

Lemma wf_addEventListener d type fn thisObj useCapture prio :
  wf d → wf (addEventListener d type fn thisObj useCapture prio).
Proof.
  intros Hwf. rewrite addEventListener_register. simpl.
  case_decide; [done|]. destruct (reaches_prototype _ _) eqn:Ereach; [done|].
  apply wf_store; [done|]. apply map_ok_insert; [by apply wf_select|].
  split; [apply register_nonempty|]. apply register_NoDup.
  destruct (select_map d useCapture !! type) as [l|] eqn:El; simpl.
  - by apply (wf_select d useCapture Hwf type l).
  - constructor.
Qed.

Lemma wf_removeEventListener d type fn useCapture :
  wf d → wf (removeEventListener d type fn useCapture).
Proof.
  intros Hwf. rewrite removeEventListener_remove_first.
  destruct (select_map d useCapture !! type) as [l|] eqn:El; [|done].
  pose proof (wf_select d useCapture Hwf type l El) as [_ Hnd].
  destruct (remove_first l fn) as [|b l'] eqn:Er.
  - apply wf_store; [done|]. apply map_ok_delete. by apply wf_select.
  - apply wf_store; [done|]. apply map_ok_insert; [by apply wf_select|].
    split; [done|]. rewrite <- Er. by apply remove_first_NoDup.
Qed.

(** The invariant holds in every state the interface produces. *)
Lemma reachable_wf d : reachable d → wf d.
Proof.
  induction 1 as [self delegate|d type fn thisObj c prio _ IH|d type fn c _ IH].
  - apply wf_constructor.
  - by apply wf_addEventListener.
  - by apply wf_removeEventListener.
Qed.

(** Buckets stay in descending priority as well. *)
Lemma reachable_sorted d c type l :
  reachable d → select_map d c !! type = Some l → sorted_desc l.
Proof.
  intros Hr. revert c type l.
  induction Hr as [self delegate|d ty fn thisObj c' prio _ IH|d ty fn c' _ IH];
    intros c type l Hl.
  - destruct c; simpl in Hl; by rewrite lookup_empty in Hl.
  - revert Hl. rewrite addEventListener_register. simpl.
    case_decide as Hdup; [by apply IH|].
    destruct (reaches_prototype _ _) eqn:Ereach; [by apply IH|].
    destruct (decide (c = c')) as [->|Hc].
    + rewrite select_store. destruct (decide (ty = type)) as [->|Hne].
      * rewrite lookup_insert_eq. intros [= <-]. apply register_sorted.
        destruct (select_map d c' !! type) as [l0|] eqn:E; simpl; [by eapply IH|done].
      * rewrite lookup_insert_ne; [by apply IH|done].
    + replace c with (negb c') by (by destruct c, c').
      rewrite select_store_other. by apply IH.
  - revert Hl. rewrite removeEventListener_remove_first.
    destruct (select_map d c' !! ty) as [l0|] eqn:E; [|by apply IH].
    assert (sorted_desc (remove_first l0 fn)) as Hs.
    { specialize (IH c' ty l0 E). clear E. induction l0 as [|b l0 IHl]; simpl; [done|].
      destruct IH as [Hb Hl0]. case_decide; [done|]. simpl. split; [|by apply IHl].
      apply Forall_forall. intros x Hx. rewrite Forall_forall in Hb. apply Hb.
      clear -Hx. induction l0 as [|a l0 IHa]; simpl in *; [done|].
      case_decide; [by apply elem_of_cons; right|].
      apply elem_of_cons in Hx as [->|Hx]; apply elem_of_cons; [by left|right; by apply IHa]. }
    destruct (decide (c = c')) as [->|Hc].
    + destruct (remove_first l0 fn) as [|b r] eqn:Er; rewrite select_store.
      * destruct (decide (ty = type)) as [->|Hne];
          [by rewrite lookup_delete_eq|rewrite lookup_delete_ne; [by apply IH|done]].
      * destruct (decide (ty = type)) as [->|Hne];
          [rewrite lookup_insert_eq; by intros [= <-]
          |rewrite lookup_insert_ne; [by apply IH|done]].
    + replace c with (negb c') by (by destruct c, c').
      destruct (remove_first l0 fn); rewrite select_store_other; by apply IH.
Qed.

(** A second registration of a listener finds the first one. *)
Lemma addEventListener_idempotent d type fn this1 prio1 this2 prio2 useCapture :
  addEventListener (addEventListener d type fn this1 useCapture prio1)
    type fn this2 useCapture prio2
  = addEventListener d type fn this1 useCapture prio1.
Proof.
  destruct (reaches_prototype (select_map d useCapture !! type) type) eqn:Er.
  { rewrite (addEventListener_inherited d) by done.
    by apply addEventListener_inherited. }
  rewrite (addEventListener_register (addEventListener _ _ _ _ _ _)). simpl.
  case_decide as Hin; [done|]. exfalso. apply Hin. clear Hin.
  rewrite addEventListener_register. simpl. rewrite Er. case_decide as Hdup.
  - done.
  - rewrite select_store, lookup_insert_eq. simpl.
    apply (register_listener_in _ (mkBin fn this1 prio1)).
Qed.

(** ** Registration twice *)

(** C3, the claim as worded fails for a type that names a member of
    [Object.prototype]: on a new dispatcher both registrations for
    "toString" read the inherited function as the bucket and throw at
    [list.push]; no bucket is stored, so after the second call the registry
    holds no binding of the listener, not one. *)
Lemma C3_registration_for_inherited_type_stores_nothing :
  let d := constructor 0 None in
  let d1 := addEventListener d "toString" 7 VNull false 0 in
  let d2 := addEventListener d1 "toString" 7 (VObj 3) false 9 in
  addEventListener_completion d "toString" 7 VNull false 0 = TypeError
  ∧ addEventListener_completion d1 "toString" 7 (VObj 3) false 9 = TypeError
  ∧ select_map d2 false !! "toString" = None
  ∧ count_listener 7 (bucket d2 false "toString") = 0.
Proof. vm_compute. split_and!; reflexivity. Qed.

(** C3, amended: on a dispatcher in a state the interface can reach, when
    the first registration returns (it does for every type that names no
    member of [Object.prototype]), registering the listener a second time
    for the same type and phase returns and changes nothing, also with
    another receiver or priority: the dispatcher after the second call is
    the dispatcher after the first, the bucket holds exactly one binding of
    the listener, and when the first call was the one that created the
    binding, that binding still carries the first call's receiver and
    priority. *)
Theorem C3_second_registration_is_noop
    d type fn this1 prio1 this2 prio2 useCapture :
  wf d →
  addEventListener_completion d type fn this1 useCapture prio1 = Return tt →
  let d1 := addEventListener d type fn this1 useCapture prio1 in
  let d2 := addEventListener d1 type fn this2 useCapture prio2 in
  addEventListener_completion d1 type fn this2 useCapture prio2 = Return tt
  ∧ d2 = d1
  ∧ ∃ l, select_map d1 useCapture !! type = Some l
         ∧ select_map d2 useCapture !! type = Some l
         ∧ count_listener fn l = 1
         ∧ (fn ∉ listeners (default [] (select_map d useCapture !! type)) →
            ∀ b, b ∈ l → listener b = fn → b = mkBin fn this1 prio1).
Proof.
  intros Hwf Hret d1 d2.
  rewrite addEventListener_completion_cases in Hret.
  destruct (reaches_prototype (select_map d useCapture !! type) type) eqn:Er;
    [discriminate Hret|clear Hret].
  assert (∃ l, select_map d1 useCapture !! type = Some l
               ∧ fn ∈ listeners l ∧ NoDup (listeners l)
               ∧ (fn ∉ listeners (default [] (select_map d useCapture !! type)) →
                  ∀ b, b ∈ l → listener b = fn → b = mkBin fn this1 prio1))
    as (l & Hl & Hin & Hnd & Hfirst).
  { pose proof (wf_addEventListener d type fn this1 useCapture prio1 Hwf) as Hwf1.
    fold d1 in Hwf1. subst d1. revert Hwf1.
    rewrite addEventListener_register. simpl. rewrite Er.
    set (l0 := default [] (select_map d useCapture !! type)).
    case_decide as Hdup; intros Hwf1.
    - destruct (select_map d useCapture !! type) as [l|] eqn:El; simpl in *.
      + exists l. split_and!; [done|done| |done].
        by apply (wf_select d useCapture Hwf type l).
      + subst l0. by apply elem_of_nil in Hdup.
    - exists (register l0 (mkBin fn this1 prio1)).
      rewrite select_store, lookup_insert_eq.
      pose proof (register_listener_in l0 (mkBin fn this1 prio1)) as Hin.
      split_and!; [done|done| |].
      + apply (wf_select _ useCapture Hwf1 type).
        by rewrite select_store, lookup_insert_eq.
      + intros _ b Hb Hfn.
        destruct (register_fresh_split l0 (mkBin fn this1 prio1) Hdup)
          as (l1 & l2 & Hl0 & Hr & _).
        rewrite Hr in Hb. apply elem_of_app in Hb as [Hb|Hb].
        * exfalso. apply Hdup. rewrite Hl0. unfold listeners.
          rewrite fmap_app, elem_of_app. left.
          apply list_elem_of_fmap. by exists b.
        * apply elem_of_cons in Hb as [->|Hb]; [done|].
          exfalso. apply Hdup. rewrite Hl0. unfold listeners.
          rewrite fmap_app, elem_of_app. right.
          apply list_elem_of_fmap. by exists b. }
  split.
  { rewrite addEventListener_completion_cases, Hl. done. }
  assert (d2 = d1) as Heq by apply addEventListener_idempotent.
  split; [done|]. exists l. rewrite Heq.
  split_and!; [done|done| |done]. by apply count_listener_NoDup.
Qed.

(** ** Removal *)

Lemma has_own d type :
  hasEventListener d type =
    truthy (_eventsMap d !! type) || truthy (_captureEventsMap d !! type)
    || is_inherited type.
Proof.
  unfold hasEventListener. rewrite !truthy_get_property.
  destruct (truthy (_eventsMap d !! type)),
    (truthy (_captureEventsMap d !! type)), (is_inherited type); done.
Qed.

Lemma has_store d c m type :
  hasEventListener (store_map d c m) type =
    truthy (m !! type) || truthy (select_map d (negb c) !! type)
    || is_inherited type.
Proof.
  rewrite has_own. destruct c; simpl; [|done].
  by rewrite (orb_comm (truthy (_eventsMap d !! type))).
Qed.

(** C7, the claim as worded fails, in two ways.  A dispatcher holds
    listener 1 for "x" in the capture map and listener 2 for "x" in the
    target/bubble map: removing listener 2 empties the target/bubble bucket
    and deletes its key, and [hasEventListener "x"] is still true, because
    it also looks in the capture map.  And on a new dispatcher, which has no
    bucket for "constructor", a removal for that type reads the inherited
    function as the bucket and throws at [list[0].listener]: it is not a
    silent no-op. *)
Lemma C7_has_listener_after_bucket_deleted :
  let d0 := addEventListener
              (addEventListener (constructor 0 None) "x" 1 VNull true 0)
              "x" 2 VNull false 0 in
  let d' := removeEventListener d0 "x" 2 false in
  (_eventsMap d0 !! "x" = Some [mkBin 2 VNull 0]
   ∧ _eventsMap d' !! "x" = None
   ∧ hasEventListener d' "x" = true)
  ∧ (_eventsMap (constructor 0 None) !! "constructor" = None
     ∧ removeEventListener_completion (constructor 0 None) "constructor" 7 false
       = TypeError).
Proof. vm_compute. split_and!; reflexivity. Qed.

(** C7, amended: on a dispatcher in a state the interface can reach and for
    a type that names no member of [Object.prototype],
    [removeEventListener] returns, and is a no-op when the bucket is absent
    or does not hold the listener; otherwise it deletes the first binding of
    the listener, the only one, and when that leaves the bucket empty the
    type key is deleted from the selected map, so a lookup finds no entry,
    never an empty bucket.  [hasEventListener] is then false exactly when
    the map of the other phase has no bucket for the type either. *)
Theorem C7_remove_deletes_binding_and_empty_bucket d type fn useCapture :
  wf d →
  Object_prototype type = None →
  let d' := removeEventListener d type fn useCapture in
  removeEventListener_completion d type fn useCapture = Return tt
  ∧ (select_map d useCapture !! type = None → d' = d)
  ∧ (∀ l, select_map d useCapture !! type = Some l → fn ∉ listeners l → d' = d)
  ∧ (∀ l, select_map d useCapture !! type = Some l → fn ∈ listeners l →
       ∃ l1 b l2,
         l = l1 ++ b :: l2 ∧ listener b = fn ∧ (fn ∉ listeners (l1 ++ l2))
         ∧ select_map d' useCapture !! type =
             (if decide (l1 ++ l2 = []) then None else Some (l1 ++ l2))
         ∧ (l1 ++ l2 = [] →
            hasEventListener d' type =
              truthy (select_map d (negb useCapture) !! type)))
  ∧ select_map d' useCapture !! type ≠ Some []
  ∧ wf d'.
Proof.
  intros Hwf Hplain d'.
  pose proof (wf_removeEventListener d type fn useCapture Hwf) as Hwf'.
  fold d' in Hwf'. split_and!; [| | | | |done].
  - rewrite removeEventListener_completion_cases, Hplain.
    by destruct (select_map d useCapture !! type).
  - intros Hn. subst d'. rewrite removeEventListener_remove_first. by rewrite Hn.
  - intros l Hl Hfresh. subst d'. rewrite removeEventListener_remove_first, Hl.
    rewrite remove_first_fresh; [|done].
    destruct (wf_select d useCapture Hwf type l Hl) as [Hne _].
    destruct l as [|b l]; [done|]. by apply store_insert_id.
  - intros l Hl Hin.
    destruct (wf_select d useCapture Hwf type l Hl) as [_ Hnd].
    pose proof (remove_first_gone l fn Hnd) as Hgone.
    destruct (remove_first_split l fn Hin) as (l1 & b & l2 & -> & Hb & Hn1 & Hr).
    rewrite Hr in Hgone.
    exists l1, b, l2. split_and!; [done|done|done| |].
    + subst d'. rewrite removeEventListener_remove_first, Hl, Hr.
      destruct (l1 ++ l2) as [|x r] eqn:E.
      * rewrite select_store, lookup_delete_eq. by case_decide.
      * rewrite select_store, lookup_insert_eq. by case_decide.
    + intros E. subst d'. rewrite removeEventListener_remove_first, Hl, Hr, E.
      rewrite has_store, lookup_delete_eq. unfold is_inherited.
      rewrite Hplain. simpl. apply orb_false_r.
  - intros Hempty.
    by destruct (wf_select d' useCapture Hwf' type [] Hempty) as [Hne _].
Qed.

(** ** What registration and removal leave alone *)

Lemma addEventListener_other_map d type fn thisObj useCapture prio :
  select_map (addEventListener d type fn thisObj useCapture prio) (negb useCapture)
  = select_map d (negb useCapture).
Proof.
  rewrite addEventListener_register. simpl. case_decide; [done|].
  destruct (reaches_prototype _ _) eqn:Ereach; [done|].
  apply select_store_other.
Qed.

Lemma addEventListener_other_key d type fn thisObj useCapture prio k :
  k ≠ type →
  select_map (addEventListener d type fn thisObj useCapture prio) useCapture !! k
  = select_map d useCapture !! k.
Proof.
  intros Hne. rewrite addEventListener_register. simpl. case_decide; [done|].
  destruct (reaches_prototype _ _) eqn:Ereach; [done|].
  by rewrite select_store, lookup_insert_ne.
Qed.

Lemma removeEventListener_other_map d type fn useCapture :
  select_map (removeEventListener d type fn useCapture) (negb useCapture)
  = select_map d (negb useCapture).
Proof.
  rewrite removeEventListener_remove_first.
  destruct (select_map d useCapture !! type) as [l|]; [|done].
  destruct (remove_first l fn); apply select_store_other.
Qed.

Lemma removeEventListener_other_key d type fn useCapture k :
  k ≠ type →
  select_map (removeEventListener d type fn useCapture) useCapture !! k
  = select_map d useCapture !! k.
Proof.
  intros Hne. rewrite removeEventListener_remove_first.
  destruct (select_map d useCapture !! type) as [l|]; [|done].
  destruct (remove_first l fn); rewrite select_store.
  - by rewrite lookup_delete_ne.
  - by rewrite lookup_insert_ne.
Qed.

(** C10: [addEventListener] and [removeEventListener] write one bucket only.
    Called with [useCapture = false] they leave the capture map as it was,
    called with [useCapture = true] they leave the target/bubble map as it
    was, and in the map they select every bucket under another type key is
    as it was.  The dispatch target is not written either. *)
Theorem C10_registration_and_removal_frame d type fn thisObj prio :
  _captureEventsMap (addEventListener d type fn thisObj false prio)
    = _captureEventsMap d
  ∧ _eventsMap (addEventListener d type fn thisObj true prio) = _eventsMap d
  ∧ _captureEventsMap (removeEventListener d type fn false) = _captureEventsMap d
  ∧ _eventsMap (removeEventListener d type fn true) = _eventsMap d
  ∧ (∀ useCapture k, k ≠ type →
       select_map (addEventListener d type fn thisObj useCapture prio) useCapture !! k
         = select_map d useCapture !! k
       ∧ select_map (removeEventListener d type fn useCapture) useCapture !! k
         = select_map d useCapture !! k)
  ∧ (∀ useCapture,
       target (addEventListener d type fn thisObj useCapture prio) = target d
       ∧ target (removeEventListener d type fn useCapture) = target d).
Proof.
  split_and!.
  - apply (addEventListener_other_map d type fn thisObj false prio).
  - apply (addEventListener_other_map d type fn thisObj true prio).
  - apply (removeEventListener_other_map d type fn false).
  - apply (removeEventListener_other_map d type fn true).
  - intros c k Hne. split.
    + by apply addEventListener_other_key.
    + by apply removeEventListener_other_key.
  - intros c. split.
    + rewrite addEventListener_register. simpl. case_decide; [done|].
  destruct (reaches_prototype _ _) eqn:Ereach; [done|].
      apply target_store.
    + rewrite removeEventListener_remove_first.
      destruct (select_map d c !! type) as [l|]; [|done].
      destruct (remove_first l fn); apply target_store.
Qed.

(** ** The notification loop *)

Section NotificationFacts.

Context {U : Type}.
Variable call : Fn -> Value -> Event -> U -> Event * U.

Lemma notify_loop_acc (l : list EventBin) event u acc :
  notify_loop call l event u acc =
    let '(e, u', tr) := notify_loop call l event u [] in (e, u', acc ++ tr).
Proof.
  revert event u acc. induction l as [|b l IH]; intros event u acc; simpl.
  - by rewrite app_nil_r.
  - destruct (call (listener b) (thisObject b) event u) as [e1 u1].
    destruct (_isPropagationImmediateStopped e1); [done|].
    rewrite (IH e1 u1 (acc ++ [b])), (IH e1 u1 [b]).
    destruct (notify_loop call l e1 u1 []) as [[e2 u2] tr].
    by rewrite app_assoc.
Qed.

(** The listeners applied are an initial segment of the bucket. *)
Lemma notify_loop_prefix (l : list EventBin) event u :
  (notify_loop call l event u []).2 `prefix_of` l.
Proof.
  revert event u. induction l as [|b l IH]; intros event u; simpl; [done|].
  destruct (call (listener b) (thisObject b) event u) as [e1 u1].
  destruct (_isPropagationImmediateStopped e1); simpl.
  - by apply prefix_cons, prefix_nil.
  - rewrite notify_loop_acc. specialize (IH e1 u1).
    destruct (notify_loop call l e1 u1 []) as [[e2 u2] tr]. simpl in *.
    by apply prefix_cons.
Qed.

(** With listeners that leave the immediate-stop flag clear the loop runs
    to the end of the bucket. *)
Lemma notify_loop_quiet (l : list EventBin) event u :
  quiet call l event u = true →
  notify_loop call l event u [] = (run_all call l event u, l).
Proof.
  revert event u. induction l as [|b l IH]; intros event u; simpl; [done|].
  destruct (call (listener b) (thisObject b) event u) as [e1 u1].
  intros [Hb Hq]%andb_true_iff. apply negb_true_iff in Hb. rewrite Hb.
  rewrite notify_loop_acc, (IH _ _ Hq). by destruct (run_all call l e1 u1).
Qed.

(** The loop ends after the first listener that leaves the flag set. *)
Lemma notify_loop_stop (pre post : list EventBin) b event u :
  quiet call pre event u = true →
  _isPropagationImmediateStopped (run_all call (pre ++ [b]) event u).1 = true →
  notify_loop call (pre ++ b :: post) event u [] =
    (run_all call (pre ++ [b]) event u, pre ++ [b]).
Proof.
  revert event u. induction pre as [|a pre IH]; intros event u; simpl.
  - intros _. destruct (call (listener b) (thisObject b) event u) as [e1 u1].
    simpl. by intros ->.
  - destruct (call (listener a) (thisObject a) event u) as [e1 u1].
    intros [Ha Hq]%andb_true_iff Hstop. apply negb_true_iff in Ha. rewrite Ha.
    rewrite notify_loop_acc, (IH _ _ Hq Hstop).
    by destruct (run_all call (pre ++ [b]) e1 u1).
Qed.

(** What [_notifyListener] does, by cases on the free identifier and on
    the lookup. *)
Lemma notify_unbound d event u :
  _notifyListener call None d event u
  = mkOutcome (ReferenceError "type") event u [].
Proof. done. Qed.

Lemma notify_absent key d event u :
  select_map d (_eventPhase event =? 1)%Z !! key = None →
  Object_prototype key = None →
  _notifyListener call (Some key) d event u
  = mkOutcome (Return true) event u [].
Proof.
  unfold _notifyListener, select_map, get_property. by intros -> ->.
Qed.

Lemma notify_inherited key d event u member :
  select_map d (_eventPhase event =? 1)%Z !! key = None →
  Object_prototype key = Some member →
  _notifyListener call (Some key) d event u
  = match inherited_length member with
    | Some (S _) => mkOutcome TypeError event u []
    | _ => mkOutcome (Return (negb (_isDefaultPrevented event))) event u []
    end.
Proof.
  unfold _notifyListener, select_map, get_property. by intros -> ->.
Qed.

(** Without an array under the key no listener is applied and nothing is
    written, however the call ends. *)
Lemma notify_no_bucket key d event u :
  select_map d (_eventPhase event =? 1)%Z !! key = None →
  invoked (_notifyListener call (Some key) d event u) = []
  ∧ event_after (_notifyListener call (Some key) d event u) = event
  ∧ user_after (_notifyListener call (Some key) d event u) = u.
Proof.
  intros El. destruct (Object_prototype key) as [member|] eqn:Ep.
  - rewrite (notify_inherited _ _ _ _ _ El Ep).
    by destruct (inherited_length member) as [[|n]|].
  - by rewrite (notify_absent _ _ _ _ El Ep).
Qed.

Lemma notify_bucket key d event u l :
  select_map d (_eventPhase event =? 1)%Z !! key = Some l →
  _notifyListener call (Some key) d event u
  = let '(e, u', tr) := notify_loop call l event u [] in
    mkOutcome (Return (negb (_isDefaultPrevented e))) e u' tr.
Proof.
  unfold _notifyListener, select_map, get_property. by intros ->.
Qed.

(** Every listener applied comes from the bucket that the free identifier
    names in the map of the event's phase. *)
Lemma notify_invoked_in_bucket type d event u b :
  b ∈ invoked (_notifyListener call type d event u) →
  ∃ key l, type = Some key
           ∧ select_map d (_eventPhase event =? 1)%Z !! key = Some l
           ∧ b ∈ l.
Proof.
  destruct type as [key|]; [|by intros H%elem_of_nil].
  destruct (select_map d (_eventPhase event =? 1)%Z !! key) as [l|] eqn:El.
  - rewrite (notify_bucket _ _ _ _ _ El).
    pose proof (notify_loop_prefix l event u) as [k Hk].
    destruct (notify_loop call l event u []) as [[e u'] tr]. simpl in *.
    intros Hb. exists key, l. split_and!; [done|done|].
    rewrite Hk. apply elem_of_app. by left.
  - destruct (notify_no_bucket _ _ event u El) as (-> & _).
    by intros H%elem_of_nil.
Qed.

(** [dispatchEvent] hands the notification an event with the three flags
    cleared and both targets stamped; the phase, the type, [bubbles] and
    [data] are as the caller set them. *)
Lemma dispatchEvent_prelude type d event u :
  dispatchEvent call type d event u
  = _notifyListener call type d (stamped d event) u.
Proof. done. Qed.

Lemma stamped_fields d event :
  _isPropagationStopped (stamped d event) = false
  ∧ _isPropagationImmediateStopped (stamped d event) = false
  ∧ _isDefaultPrevented (stamped d event) = false
  ∧ _target (stamped d event) = Some (target d)
  ∧ _currentTarget (stamped d event) = Some (target d)
  ∧ _eventPhase (stamped d event) = _eventPhase event
  ∧ _type (stamped d event) = _type event
  ∧ _bubbles (stamped d event) = _bubbles event
  ∧ data (stamped d event) = data event.
Proof. done. Qed.

(** The value returned by [dispatchEvent], when a value is returned, is
    the negation of the default-prevention flag as the listeners left it. *)
Lemma dispatch_result_flag type d event u r :
  result (dispatchEvent call type d event u) = Return r →
  r = negb (_isDefaultPrevented (event_after (dispatchEvent call type d event u))).
Proof.
  rewrite dispatchEvent_prelude.
  destruct type as [key|]; [|done].
  destruct (select_map d (_eventPhase (stamped d event) =? 1)%Z !! key)
    as [l|] eqn:El.
  - rewrite (notify_bucket _ _ _ _ _ El).
    destruct (notify_loop call l (stamped d event) u []) as [[e u'] tr].
    simpl. by intros [= <-].
  - destruct (Object_prototype key) as [member|] eqn:Ep.
    + rewrite (notify_inherited _ _ _ _ _ El Ep).
      destruct (inherited_length member) as [[|n]|]; simpl; try done;
        by intros [= <-].
    + rewrite (notify_absent _ _ _ _ El Ep). simpl. by intros [= <-].
Qed.

(** [dispatchEvent] returns a value only when the free identifier of
    [_notifyListener] is bound, and it does return one when the identifier
    is bound to a key that names no member of [Object.prototype]. *)
Lemma dispatch_returns_bound type d event u r :
  result (dispatchEvent call type d event u) = Return r → is_Some type.
Proof.
  rewrite dispatchEvent_prelude. destruct type as [key|]; [by eauto|done].
Qed.

Lemma dispatch_returns_plain_key key d event u :
  Object_prototype key = None →
  ∃ r, result (dispatchEvent call (Some key) d event u) = Return r.
Proof.
  intros Ep. rewrite dispatchEvent_prelude.
  destruct (select_map d (_eventPhase (stamped d event) =? 1)%Z !! key)
    as [l|] eqn:El.
  - rewrite (notify_bucket _ _ _ _ _ El).
    destruct (notify_loop call l (stamped d event) u []) as [[e u'] tr].
    by eauto.
  - rewrite (notify_absent _ _ _ _ El Ep). by eauto.
Qed.

(** Listeners that never write the default-prevention flag leave it as it
    was, whatever the loop does. *)
Lemma notify_loop_keeps_flag (l : list EventBin) event u :
  (∀ fn this e s, _isDefaultPrevented (call fn this e s).1 = _isDefaultPrevented e) →
  _isDefaultPrevented (notify_loop call l event u []).1.1
  = _isDefaultPrevented event.
Proof.
  intros Hkeep. revert event u.
  induction l as [|b l IH]; intros event u; simpl; [done|].
  pose proof (Hkeep (listener b) (thisObject b) event u) as Hb.
  destruct (call (listener b) (thisObject b) event u) as [e1 u1]. simpl in Hb.
  destruct (_isPropagationImmediateStopped e1); simpl; [done|].
  rewrite notify_loop_acc. specialize (IH e1 u1).
  destruct (notify_loop call l e1 u1 []) as [[e2 u2] tr]. simpl in *.
  congruence.
Qed.

(** When the free identifier is bound to a key that names no member of
    [Object.prototype], two dispatches in a row of one event object both
    return [true] if no listener writes the default-prevention flag. *)
Lemma dispatch_twice_true_when_bound key d event u :
  Object_prototype key = None →
  (∀ fn this e s, _isDefaultPrevented (call fn this e s).1 = _isDefaultPrevented e) →
  let o1 := dispatchEvent call (Some key) d event u in
  let o2 := dispatchEvent call (Some key) d (event_after o1) (user_after o1) in
  result o1 = Return true ∧ result o2 = Return true.
Proof.
  intros Ep Hkeep.
  assert (∀ e s, result (dispatchEvent call (Some key) d e s) = Return true)
    as Hone.
  { intros e s. rewrite dispatchEvent_prelude.
    destruct (select_map d (_eventPhase (stamped d e) =? 1)%Z !! key)
      as [l|] eqn:El.
    - rewrite (notify_bucket _ _ _ _ _ El).
      pose proof (notify_loop_keeps_flag l (stamped d e) s Hkeep) as Hf.
      destruct (notify_loop call l (stamped d e) s []) as [[e' u'] tr].
      simpl in *. by rewrite Hf.
    - by rewrite (notify_absent _ _ _ _ El Ep). }
  intros o1 o2. split; apply Hone.
Qed.

(** Either no listener of the bucket leaves the immediate-stop flag set, or
    there is a first one that does. *)
Lemma quiet_or_first_stop (l : list EventBin) event u :
  quiet call l event u = true
  ∨ ∃ pre b post, l = pre ++ b :: post ∧ quiet call pre event u = true
      ∧ _isPropagationImmediateStopped (run_all call (pre ++ [b]) event u).1 = true.
Proof.
  revert event u. induction l as [|a l IH]; intros event u; simpl; [by left|].
  destruct (call (listener a) (thisObject a) event u) as [e1 u1] eqn:Ec.
  destruct (_isPropagationImmediateStopped e1) eqn:Es; simpl.
  - right. exists [], a, l. simpl. rewrite Ec. by simpl.
  - destruct (IH e1 u1) as [Hq|(pre & b & post & -> & Hq & Hs)]; [by left|].
    right. exists (a :: pre), b, post. simpl. rewrite Ec, Es. by simpl.
Qed.

(** A dispatch whose free identifier is unbound, or names a key without a
    bucket, applies no listener, whatever the bucket of the event's own type
    holds. *)
Lemma dispatch_misses_event_bucket type d event u :
  (∀ key, type = Some key → select_map d (_eventPhase event =? 1)%Z !! key = None) →
  invoked (dispatchEvent call type d event u) = [].
Proof.
  intros Hmiss. rewrite dispatchEvent_prelude. destruct type as [key|]; [|done].
  by apply notify_no_bucket, Hmiss.
Qed.

End NotificationFacts.

(** ** Which listeners fire *)

(** C1, the code at a listener registered for "x": listener 7 sits in the
    target/bubble bucket of "x" and an event of type "x" in the target phase
    is dispatched.  The lookup of [_notifyListener] is keyed by its free
    identifier [type], not by [event._type]: with the identifier unbound the
    dispatch throws, with the identifier bound to another key it returns
    [true], and in both cases no listener is applied.  The listener is
    applied only when the identifier happens to be bound to "x". *)
Theorem C1_listener_for_event_type_not_invoked :
  let d := addEventListener (constructor 0 None) "x" 7 VNull false 0 in
  let event := sample_event "x" 2 in
  _eventsMap d !! _type event = Some [mkBin 7 VNull 0]
  ∧ result (dispatchEvent sample_call None d event 0) = ReferenceError "type"
  ∧ invoked (dispatchEvent sample_call None d event 0) = []
  ∧ result (dispatchEvent sample_call (Some "y") d event 0) = Return true
  ∧ invoked (dispatchEvent sample_call (Some "y") d event 0) = []
  ∧ invoked (dispatchEvent sample_call (Some "x") d event 0) = [mkBin 7 VNull 0].
Proof. vm_compute. split_and!; reflexivity. Qed.

(** C2, the code at the priorities [0, 5, 0, 3]: listeners 1, 2, 3 and 4 are
    registered in that order with these priorities.  The bucket is in
    descending priority, but the second listener of priority 0 (listener 3)
    is stored, and notified, before the first one (listener 1): the scan
    stops at the first binding of priority [<=] the new one, so a new
    binding goes in front of the bindings of equal priority. *)
Theorem C2_equal_priorities_in_reverse_insertion_order :
  let d := addEventListener (addEventListener (addEventListener (addEventListener
             (constructor 0 None)
             "x" 1 VNull false 0) "x" 2 VNull false 5)
             "x" 3 VNull false 0) "x" 4 VNull false 3 in
  _eventsMap d !! "x"
    = Some [mkBin 2 VNull 5; mkBin 4 VNull 3; mkBin 3 VNull 0; mkBin 1 VNull 0]
  ∧ listeners (invoked (dispatchEvent sample_call (Some "x") d (sample_event "x" 2) 0))
    = [2; 4; 3; 1].
Proof. vm_compute. split; reflexivity. Qed.

(** C4, the code at an event type without a bucket: the dispatcher holds one
    listener, for "y", which prevents the default; an event of type "x" is
    dispatched.  No bucket exists for "x" in either map.  With the free
    identifier of [_notifyListener] unbound the dispatch throws instead of
    returning [true]; with the identifier bound to "y" the listener for "y"
    runs and the dispatch returns [false]. *)
Theorem C4_dispatch_without_bucket_for_event_type :
  let d := addEventListener (constructor 0 None) "y" 11 VNull false 0 in
  let event := sample_event "x" 2 in
  _eventsMap d !! _type event = None
  ∧ _captureEventsMap d !! _type event = None
  ∧ result (dispatchEvent sample_call None d event 0) = ReferenceError "type"
  ∧ result (dispatchEvent sample_call None (constructor 0 None) event 0)
    = ReferenceError "type"
  ∧ result (dispatchEvent sample_call (Some "y") d event 0) = Return false
  ∧ invoked (dispatchEvent sample_call (Some "y") d event 0) = [mkBin 11 VNull 0].
Proof. vm_compute. split_and!; reflexivity. Qed.

(** C8, the code at two dispatches in a row: a dispatcher without listeners
    dispatches one event object twice.  Each call clears the three flags and
    stamps both targets with the dispatcher's target, and then, the free
    identifier of [_notifyListener] being unbound, throws: neither call
    returns [true]. *)
Theorem C8_consecutive_dispatches_throw :
  let d := constructor 0 None in
  let event := preventDefault (stopImmediatePropagation (sample_event "x" 2)) in
  let o1 := dispatchEvent sample_call None d event 0 in
  let o2 := dispatchEvent sample_call None d (event_after o1) (user_after o1) in
  event_after o1 = stamped d event
  ∧ _isPropagationStopped (event_after o1) = false
  ∧ _isPropagationImmediateStopped (event_after o1) = false
  ∧ _isDefaultPrevented (event_after o1) = false
  ∧ _target (event_after o1) = Some 0
  ∧ _currentTarget (event_after o1) = Some 0
  ∧ result o1 = ReferenceError "type"
  ∧ result o2 = ReferenceError "type".
Proof. vm_compute. split_and!; reflexivity. Qed.

(** C5: in a pass of [_notifyListener] over a bucket, let [b] be the first
    binding whose listener returns with the immediate-stop flag set, [pre]
    the bindings stored before it and [post] those stored after it.  The
    listeners applied are exactly those of [pre] and then [b]; no binding of
    [post] is applied; the event and the outside state are as those
    listeners left them; and the value returned is the negation of the
    default-prevention flag those listeners left. *)
Theorem C5_immediate_stop_ends_pass {U : Type}
    (call : Fn -> Value -> Event -> U -> Event * U)
    key d event (u : U) pre b post :
  select_map d (_eventPhase event =? 1)%Z !! key = Some (pre ++ b :: post) →
  quiet call pre event u = true →
  _isPropagationImmediateStopped (run_all call (pre ++ [b]) event u).1 = true →
  let o := _notifyListener call (Some key) d event u in
  invoked o = pre ++ [b]
  ∧ (NoDup (listeners (pre ++ b :: post)) →
     ∀ x, x ∈ post → listener x ∉ listeners (invoked o))
  ∧ (event_after o, user_after o) = run_all call (pre ++ [b]) event u
  ∧ result o
    = Return (negb (_isDefaultPrevented (run_all call (pre ++ [b]) event u).1)).
Proof.
  intros Hl Hq Hstop o. subst o.
  rewrite (notify_bucket _ _ _ _ _ _ Hl), (notify_loop_stop _ _ _ _ _ _ Hq Hstop).
  destruct (run_all call (pre ++ [b]) event u) as [e u']. simpl.
  split_and!; [done| |done|done].
  intros Hnd x Hx Hin. unfold listeners in *.
  replace (pre ++ b :: post) with ((pre ++ [b]) ++ post) in Hnd
    by (by rewrite <- app_assoc).
  rewrite fmap_app in Hnd. apply NoDup_app in Hnd as (_ & Hdisj & _).
  apply (Hdisj _ Hin). apply list_elem_of_fmap. by exists x.
Qed.

Lemma C5_immediate_stop_ends_pass_witness :
  let d := addEventListener (addEventListener (addEventListener
             (constructor 0 None)
             "x" 11 VNull false 2) "x" 12 VNull false 1) "x" 8 VNull false 0 in
  let o := _notifyListener sample_call (Some "x") d (sample_event "x" 2) 0 in
  invoked o = [mkBin 11 VNull 2] ++ [mkBin 12 VNull 1]
  ∧ (NoDup (listeners ([mkBin 11 VNull 2] ++ mkBin 12 VNull 1 :: [mkBin 8 VNull 0])) →
     ∀ x, x ∈ [mkBin 8 VNull 0] → listener x ∉ listeners (invoked o))
  ∧ (event_after o, user_after o)
    = run_all sample_call ([mkBin 11 VNull 2] ++ [mkBin 12 VNull 1])
        (sample_event "x" 2) 0
  ∧ result o
    = Return (negb (_isDefaultPrevented
        (run_all sample_call ([mkBin 11 VNull 2] ++ [mkBin 12 VNull 1])
           (sample_event "x" 2) 0).1)).
Proof.
  apply (C5_immediate_stop_ends_pass sample_call "x" _ (sample_event "x" 2) 0
           [mkBin 11 VNull 2] (mkBin 12 VNull 1) [mkBin 8 VNull 0]).
  - vm_compute. reflexivity.
  - vm_compute. reflexivity.
  - vm_compute. reflexivity.
Defined.

(** C6: a notification consults one bucket, in the map chosen by the event's
    phase.  Take a listener registered with [useCapture] and with no binding
    in the map of the other phase, and an event whose phase selects that
    other map (not Capture for [useCapture = true], Capture for
    [useCapture = false]): whatever the state of the rest of the registry,
    neither [_notifyListener] nor [dispatchEvent] applies the listener, and
    every binding they apply is stored in a bucket of the map of the event's
    phase. *)
Theorem C6_phase_isolation {U : Type}
    (call : Fn -> Value -> Event -> U -> Event * U)
    type d type_ fn thisObj useCapture prio event (u : U) :
  ¬ registered_in (select_map d (negb useCapture)) fn →
  (_eventPhase event =? 1)%Z = negb useCapture →
  let d' := addEventListener d type_ fn thisObj useCapture prio in
  (∀ b, b ∈ invoked (_notifyListener call type d' event u) →
     ∃ key l, type = Some key
              ∧ select_map d' (_eventPhase event =? 1)%Z !! key = Some l
              ∧ b ∈ l)
  ∧ (fn ∉ listeners (invoked (_notifyListener call type d' event u)))
  ∧ (fn ∉ listeners (invoked (dispatchEvent call type d' event u))).
Proof.
  intros Hother Hphase d'.
  assert (∀ e, _eventPhase e = _eventPhase event →
            fn ∉ listeners (invoked (_notifyListener call type d' e u))) as Hno.
  { intros e He Hin. apply list_elem_of_fmap in Hin as (b & Hfn & Hb).
    apply notify_invoked_in_bucket in Hb as (key & l & _ & Hl & Hbl).
    rewrite He, Hphase in Hl. subst d'.
    rewrite addEventListener_other_map in Hl.
    apply Hother. exists key, l. split; [done|].
    apply list_elem_of_fmap. by exists b. }
  split_and!.
  - intros b Hb. by apply notify_invoked_in_bucket in Hb.
  - by apply Hno.
  - rewrite dispatchEvent_prelude. by apply Hno.
Qed.

Lemma C6_phase_isolation_witness :
  let d' := addEventListener
              (addEventListener (constructor 0 None) "x" 8 VNull false 0)
              "x" 7 VNull true 0 in
  let event := sample_event "x" 2 in
  (∀ b, b ∈ invoked (_notifyListener sample_call (Some "x") d' event 0) →
     ∃ key l, Some "x" = Some key
              ∧ select_map d' (_eventPhase event =? 1)%Z !! key = Some l
              ∧ b ∈ l)
  ∧ (7 ∉ listeners (invoked (_notifyListener sample_call (Some "x") d' event 0)))
  ∧ (7 ∉ listeners (invoked (dispatchEvent sample_call (Some "x") d' event 0))).
Proof.
  apply (C6_phase_isolation sample_call (Some "x")
           (addEventListener (constructor 0 None) "x" 8 VNull false 0)
           "x" 7 VNull true 0 (sample_event "x" 2) 0).
  - intros (k & l & Hl & Hin). change (negb true) with false in Hl.
    destruct (decide (k = "x")) as [->|Hne].
    + vm_compute in Hl. injection Hl as <-. vm_compute in Hin.
      apply list_elem_of_singleton in Hin. discriminate Hin.
    + rewrite addEventListener_other_key in Hl; [|done].
      simpl in Hl. rewrite lookup_empty in Hl. discriminate Hl.
  - vm_compute. reflexivity.
Defined.

(** ** The convenience dispatch *)

(** C9: [dispatchEventWith] writes its three arguments into the type,
    [bubbles] and [data] fields of the shared event, leaves its other fields
    as they are, and dispatches that event: the listeners applied, the state
    the shared event and the rest of the program are left in, and whether
    the call returns or throws are those of [dispatchEvent] on the shared
    event so written; the boolean is dropped. *)
Theorem C9_dispatchEventWith_dispatches_shared_event {U : Type}
    (call : Fn -> Value -> Event -> U -> Event * U)
    type d type_ bubbles data_ shared (u : U) :
  let event := set_data (set_bubbles (set_type shared type_) bubbles) data_ in
  let o := dispatchEventWith call type d type_ bubbles data_ shared u in
  let o' := dispatchEvent call type d event u in
  (_type event = type_ ∧ _bubbles event = bubbles ∧ data event = data_)
  ∧ (_target event = _target shared
     ∧ _currentTarget event = _currentTarget shared
     ∧ _eventPhase event = _eventPhase shared
     ∧ _isPropagationStopped event = _isPropagationStopped shared
     ∧ _isPropagationImmediateStopped event = _isPropagationImmediateStopped shared
     ∧ _isDefaultPrevented event = _isDefaultPrevented shared)
  ∧ event_after o = event_after o'
  ∧ user_after o = user_after o'
  ∧ invoked o = invoked o'
  ∧ (result o = Return tt ↔ ∃ r, result o' = Return r)
  ∧ (∀ n, result o = ReferenceError n ↔ result o' = ReferenceError n)
  ∧ (result o = TypeError ↔ result o' = TypeError).
Proof.
  intros event o o'. split_and!; try done.
  - subst o. unfold dispatchEventWith. fold event. fold o'. simpl.
    destruct (result o') as [r|n|]; split; try done; [by eauto| |];
      by intros [r Hr].
  - intros n. subst o. unfold dispatchEventWith. fold event. fold o'. simpl.
    destruct (result o') as [r|n'|]; split; try done; by intros [= ->].
  - subst o. unfold dispatchEventWith. fold event. fold o'. simpl.
    by destruct (result o') as [r|n|].
Qed.

Example dispatchEventWith_sample :
  let d := addEventListener (constructor 5 (Some 9)) "x" 11 VNull false 0 in
  let o := dispatchEventWith sample_call (Some "x") d "x" true (VNum 3)
             (sample_event "old" 2) 0 in
  result o = Return tt
  ∧ event_after o
    = {| _type := "x"; _bubbles := true; data := VNum 3;
         _target := Some 9; _currentTarget := Some 9; _eventPhase := 2;
         _isPropagationStopped := false;
         _isPropagationImmediateStopped := false;
         _isDefaultPrevented := true |}
  ∧ listeners (invoked o) = [11].
Proof. vm_compute. split_and!; reflexivity. Qed.

(** The event is one object for all dispatchers: a second dispatcher starts
    from the event as the first one left it and overwrites the three fields
    and the targets. *)
Example reuseEvent_shared_across_dispatchers :
  let d1 := addEventListener (constructor 1 None) "a" 11 VNull false 0 in
  let d2 := constructor 2 None in
  let o1 := dispatchEventWith sample_call (Some "a") d1 "a" true (VNum 1)
              (sample_event "" 2) 0 in
  let o2 := dispatchEventWith sample_call (Some "b") d2 "b" false VNull
              (event_after o1) (user_after o1) in
  (_type (event_after o1), _target (event_after o1),
   _isDefaultPrevented (event_after o1)) = ("a", Some 1, true)
  ∧ (_type (event_after o2), _target (event_after o2),
     _isDefaultPrevented (event_after o2)) = ("b", Some 2, false).
Proof. vm_compute. split; reflexivity. Qed.

(** ** The statements at concrete dispatchers *)

Lemma C3_second_registration_is_noop_witness :
  let d := addEventListener (constructor 0 None) "x" 8 VNull false 5 in
  let d1 := addEventListener d "x" 7 VNull false 0 in
  let d2 := addEventListener d1 "x" 7 (VObj 3) false 9 in
  addEventListener_completion d1 "x" 7 (VObj 3) false 9 = Return tt
  ∧ d2 = d1
  ∧ ∃ l, select_map d1 false !! "x" = Some l
         ∧ select_map d2 false !! "x" = Some l
         ∧ count_listener 7 l = 1
         ∧ (7 ∉ listeners (default [] (select_map d false !! "x")) →
            ∀ b, b ∈ l → listener b = 7 → b = mkBin 7 VNull 0).
Proof.
  apply (C3_second_registration_is_noop
           (addEventListener (constructor 0 None) "x" 8 VNull false 5)
           "x" 7 VNull 0 (VObj 3) 9 false).
  - apply wf_addEventListener, wf_constructor.
  - vm_compute. reflexivity.
Defined.

Lemma C7_remove_deletes_binding_and_empty_bucket_witness :
  let d := addEventListener (constructor 0 None) "x" 7 VNull false 0 in
  let d' := removeEventListener d "x" 7 false in
  removeEventListener_completion d "x" 7 false = Return tt
  ∧ (select_map d false !! "x" = None → d' = d)
  ∧ (∀ l, select_map d false !! "x" = Some l → 7 ∉ listeners l → d' = d)
  ∧ (∀ l, select_map d false !! "x" = Some l → 7 ∈ listeners l →
       ∃ l1 b l2,
         l = l1 ++ b :: l2 ∧ listener b = 7 ∧ (7 ∉ listeners (l1 ++ l2))
         ∧ select_map d' false !! "x" =
             (if decide (l1 ++ l2 = []) then None else Some (l1 ++ l2))
         ∧ (l1 ++ l2 = [] →
            hasEventListener d' "x" = truthy (select_map d (negb false) !! "x")))
  ∧ select_map d' false !! "x" ≠ Some []
  ∧ wf d'.
Proof.
  apply (C7_remove_deletes_binding_and_empty_bucket
           (addEventListener (constructor 0 None) "x" 7 VNull false 0)
           "x" 7 false).
  - apply wf_addEventListener, wf_constructor.
  - vm_compute. reflexivity.
Defined.

(** * Further properties of the registry *)

(** ** The bucket after a call *)

Lemma store_store d c m1 m2 :
  store_map (store_map d c m1) c m2 = store_map d c m2.
Proof. by destruct c. Qed.

Lemma has_select d c k :
  hasEventListener d k =
    truthy (select_map d c !! k) || truthy (select_map d (negb c) !! k)
    || is_inherited k.
Proof.
  rewrite has_own. destruct c; simpl; [|done].
  by rewrite (orb_comm (truthy (_eventsMap d !! k))).
Qed.

Lemma lookup_after_add d type fn thisObj useCapture prio :
  reaches_prototype (select_map d useCapture !! type) type = false →
  select_map (addEventListener d type fn thisObj useCapture prio) useCapture !! type
  = Some (register (bucket d useCapture type) (mkBin fn thisObj prio)).
Proof.
  intros Er. rewrite addEventListener_register. unfold bucket. simpl.
  rewrite Er. case_decide as Hdup.
  - destruct (select_map d useCapture !! type) as [l|] eqn:El; simpl in *.
    + by rewrite register_dup.
    + by apply elem_of_nil in Hdup.
  - by rewrite select_store, lookup_insert_eq.
Qed.

Lemma reaches_prototype_true (found : option (list EventBin)) key :
  reaches_prototype found key = true → found = None ∧ is_inherited key = true.
Proof. unfold reaches_prototype. by destruct found. Qed.

Lemma lookup_after_remove d type fn useCapture :
  select_map (removeEventListener d type fn useCapture) useCapture !! type
  = match select_map d useCapture !! type with
    | None => None
    | Some l => match remove_first l fn with [] => None | l' => Some l' end
    end.
Proof.
  rewrite removeEventListener_remove_first.
  destruct (select_map d useCapture !! type) as [l|] eqn:El; [|done].
  destruct (remove_first l fn); rewrite select_store.
  - apply lookup_delete_eq.
  - apply lookup_insert_eq.
Qed.

Lemma bucket_after_add d type fn thisObj useCapture prio :
  reaches_prototype (select_map d useCapture !! type) type = false →
  bucket (addEventListener d type fn thisObj useCapture prio) useCapture type
  = register (bucket d useCapture type) (mkBin fn thisObj prio).
Proof. intros Er. unfold bucket at 1. by rewrite lookup_after_add. Qed.

Lemma bucket_after_remove d type fn useCapture :
  bucket (removeEventListener d type fn useCapture) useCapture type
  = remove_first (bucket d useCapture type) fn.
Proof.
  unfold bucket. rewrite lookup_after_remove.
  destruct (select_map d useCapture !! type) as [l|]; simpl; [|done].
  by destruct (remove_first l fn).
Qed.

Lemma wf_bucket_NoDup d c type : wf d → NoDup (listeners (bucket d c type)).
Proof.
  intros Hwf. unfold bucket.
  destruct (select_map d c !! type) as [l|] eqn:El; simpl; [|constructor].
  by apply (wf_select d c Hwf type l).
Qed.

Lemma wf_bucket_lookup d c type :
  wf d → bucket d c type ≠ [] → select_map d c !! type = Some (bucket d c type).
Proof.
  intros Hwf. unfold bucket.
  by destruct (select_map d c !! type) as [l|] eqn:El; simpl.
Qed.

Lemma wf_bucket_nil d c type :
  wf d → bucket d c type = [] → select_map d c !! type = None.
Proof.
  intros Hwf. unfold bucket.
  destruct (select_map d c !! type) as [l|] eqn:El; simpl; [|done].
  intros ->. by destruct (wf_select d c Hwf type [] El).
Qed.

Lemma remove_first_app_fresh (l1 l2 : list EventBin) b :
  listener b ∉ listeners l1 →
  remove_first (l1 ++ b :: l2) (listener b) = l1 ++ l2.
Proof.
  induction l1 as [|a l1 IH]; simpl.
  - intros _. by case_decide.
  - intros [Hne Hn]%not_elem_of_cons. case_decide; [congruence|].
    by rewrite IH.
Qed.

Lemma remove_first_register (l : list EventBin) b :
  listener b ∉ listeners l → remove_first (register l b) (listener b) = l.
Proof.
  intros Hn. destruct (register_fresh_split l b Hn) as (l1 & l2 & -> & -> & _).
  apply remove_first_app_fresh. unfold listeners in *.
  rewrite fmap_app, elem_of_app in Hn. tauto.
Qed.

(** ** Round trips and repeated calls *)

(** X1: on a dispatcher in a state where no bucket is empty, registering a
    listener that the bucket does not hold and removing it again gives back
    the dispatcher as it was: the other bindings are in their old places,
    and a bucket created for the listener is deleted again. *)
Theorem X1_add_then_remove_restores d type fn thisObj useCapture prio :
  wf d →
  fn ∉ listeners (bucket d useCapture type) →
  removeEventListener
    (addEventListener d type fn thisObj useCapture prio) type fn useCapture
  = d.
Proof.
  intros Hwf Hfresh.
  destruct (reaches_prototype (select_map d useCapture !! type) type) eqn:Er.
  { rewrite addEventListener_inherited by done.
    apply reaches_prototype_true in Er as [Hnone _].
    by rewrite removeEventListener_remove_first, Hnone. }
  rewrite removeEventListener_remove_first, lookup_after_add by done.
  pose proof (remove_first_register _ (mkBin fn thisObj prio) Hfresh) as Hrr.
  simpl in Hrr. rewrite Hrr. clear Hrr.
  rewrite addEventListener_register. fold (bucket d useCapture type). simpl.
  rewrite Er. case_decide; [done|].
  destruct (bucket d useCapture type) as [|b l] eqn:Eb;
    rewrite select_store, store_store.
  - rewrite delete_insert_eq, delete_id; [apply store_select|].
    by apply wf_bucket_nil.
  - rewrite insert_insert_eq. apply store_insert_id.
    rewrite <- Eb. apply wf_bucket_lookup; [done|by rewrite Eb].
Qed.

Lemma X1_add_then_remove_restores_witness :
  removeEventListener
    (addEventListener
       (addEventListener (constructor 0 None) "x" 8 VNull false 5)
       "x" 7 (VObj 3) false 5)
    "x" 7 false
  = addEventListener (constructor 0 None) "x" 8 VNull false 5.
Proof.
  apply (X1_add_then_remove_restores
           (addEventListener (constructor 0 None) "x" 8 VNull false 5)
           "x" 7 (VObj 3) false 5).
  - apply wf_addEventListener, wf_constructor.
  - vm_compute. intros H. apply list_elem_of_singleton in H. discriminate H.
Defined.

(** X2: removing a listener a second time changes nothing more. *)
Theorem X2_remove_twice d type fn useCapture :
  wf d →
  removeEventListener (removeEventListener d type fn useCapture) type fn useCapture
  = removeEventListener d type fn useCapture.
Proof.
  intros Hwf.
  pose proof (wf_removeEventListener d type fn useCapture Hwf) as Hwf'.
  set (d' := removeEventListener d type fn useCapture) in *.
  rewrite removeEventListener_remove_first.
  destruct (select_map d' useCapture !! type) as [l|] eqn:El; [|done].
  assert (fn ∉ listeners l) as Hgone.
  { assert (bucket d' useCapture type = l) as <- by (unfold bucket; by rewrite El).
    subst d'. rewrite bucket_after_remove.
    apply remove_first_gone, wf_bucket_NoDup, Hwf. }
  rewrite remove_first_fresh; [|done].
  destruct (wf_select d' useCapture Hwf' type l El) as [Hne _].
  destruct l as [|b l]; [done|]. by apply store_insert_id.
Qed.

Lemma X2_remove_twice_witness :
  let d := addEventListener
             (addEventListener (constructor 0 None) "x" 8 VNull false 5)
             "x" 7 VNull false 0 in
  removeEventListener (removeEventListener d "x" 7 false) "x" 7 false
  = removeEventListener d "x" 7 false.
Proof.
  apply (X2_remove_twice
           (addEventListener
              (addEventListener (constructor 0 None) "x" 8 VNull false 5)
              "x" 7 VNull false 0)
           "x" 7 false).
  apply wf_addEventListener, wf_addEventListener, wf_constructor.
Defined.

(** X3: for a type that names no member of [Object.prototype], the way to
    change the receiver or the priority of a registered listener is to
    remove it and register it again: both calls return, and after them the
    bucket holds the new binding, and no other binding of the listener. *)
Theorem X3_remove_then_add_rebinds d type fn thisObj useCapture prio :
  wf d →
  Object_prototype type = None →
  let d0 := removeEventListener d type fn useCapture in
  let d' := addEventListener d0 type fn thisObj useCapture prio in
  removeEventListener_completion d type fn useCapture = Return tt
  ∧ addEventListener_completion d0 type fn thisObj useCapture prio = Return tt
  ∧ ∃ l, select_map d' useCapture !! type = Some l
         ∧ mkBin fn thisObj prio ∈ l
         ∧ count_listener fn l = 1
         ∧ ∀ b, b ∈ l → listener b = fn → b = mkBin fn thisObj prio.
Proof.
  intros Hwf Hplain d0 d'. subst d' d0. split.
  { rewrite removeEventListener_completion_cases, Hplain.
    by destruct (select_map d useCapture !! type). }
  split.
  { by rewrite addEventListener_completion_cases, reaches_prototype_own. }
  rewrite lookup_after_add, bucket_after_remove
    by (by apply reaches_prototype_own).
  set (l0 := remove_first (bucket d useCapture type) fn).
  assert (fn ∉ listeners l0) as Hgone
    by apply remove_first_gone, wf_bucket_NoDup, Hwf.
  assert (NoDup (listeners l0)) as Hnd
    by apply remove_first_NoDup, wf_bucket_NoDup, Hwf.
  destruct (register_fresh_split l0 (mkBin fn thisObj prio) Hgone)
    as (l1 & l2 & Hl0 & Hr & _).
  eexists. split; [done|]. split_and!.
  - rewrite Hr. apply elem_of_app. right. by apply elem_of_cons; left.
  - apply count_listener_NoDup; [by apply register_NoDup|].
    apply (register_listener_in l0 (mkBin fn thisObj prio)).
  - intros b Hb Hfn. rewrite Hr in Hb.
    assert (b ∈ l0 → False) as Hnot.
    { intros Hin. apply Hgone. apply list_elem_of_fmap. by exists b. }
    apply elem_of_app in Hb as [Hb|Hb].
    + exfalso. apply Hnot. rewrite Hl0. apply elem_of_app. by left.
    + apply elem_of_cons in Hb as [->|Hb]; [done|].
      exfalso. apply Hnot. rewrite Hl0. apply elem_of_app. by right.
Qed.

Lemma X3_remove_then_add_rebinds_witness :
  let d := addEventListener
             (addEventListener (constructor 0 None) "x" 8 VNull false 5)
             "x" 7 VNull false 0 in
  let d0 := removeEventListener d "x" 7 false in
  let d' := addEventListener d0 "x" 7 (VObj 3) false 9 in
  removeEventListener_completion d "x" 7 false = Return tt
  ∧ addEventListener_completion d0 "x" 7 (VObj 3) false 9 = Return tt
  ∧ ∃ l, select_map d' false !! "x" = Some l
         ∧ mkBin 7 (VObj 3) 9 ∈ l
         ∧ count_listener 7 l = 1
         ∧ ∀ b, b ∈ l → listener b = 7 → b = mkBin 7 (VObj 3) 9.
Proof.
  apply (X3_remove_then_add_rebinds
           (addEventListener
              (addEventListener (constructor 0 None) "x" 8 VNull false 5)
              "x" 7 VNull false 0)
           "x" 7 (VObj 3) false 9).
  - apply wf_addEventListener, wf_addEventListener, wf_constructor.
  - vm_compute. reflexivity.
Defined.

(** ** What [hasEventListener] tells *)

(** X4: after [addEventListener] the dispatcher reports a listener for the
    type, whether the call stored a binding or found the listener already
    there. *)
Theorem X4_has_listener_after_add d type fn thisObj useCapture prio :
  hasEventListener (addEventListener d type fn thisObj useCapture prio) type
  = true.
Proof.
  destruct (reaches_prototype (select_map d useCapture !! type) type) eqn:Er.
  - rewrite addEventListener_inherited by done.
    apply reaches_prototype_true in Er as [_ Hin].
    rewrite has_own, Hin. apply orb_true_r.
  - by rewrite (has_select _ useCapture), lookup_after_add.
Qed.

(** X5: registering or removing a listener for one type does not change
    what [hasEventListener] answers for another type. *)
Theorem X5_has_listener_other_type d type fn thisObj useCapture prio k :
  k ≠ type →
  hasEventListener (addEventListener d type fn thisObj useCapture prio) k
  = hasEventListener d k
  ∧ hasEventListener (removeEventListener d type fn useCapture) k
    = hasEventListener d k.
Proof.
  intros Hne. rewrite !(has_select _ useCapture).
  rewrite addEventListener_other_key, addEventListener_other_map by done.
  by rewrite removeEventListener_other_key, removeEventListener_other_map.
Qed.

Lemma X5_has_listener_other_type_witness :
  let d := addEventListener (constructor 0 None) "y" 8 VNull true 0 in
  hasEventListener (addEventListener d "x" 7 VNull false 0) "y"
  = hasEventListener d "y"
  ∧ hasEventListener (removeEventListener d "x" 7 false) "y"
    = hasEventListener d "y".
Proof.
  apply (X5_has_listener_other_type
           (addEventListener (constructor 0 None) "y" 8 VNull true 0)
           "x" 7 VNull false 0 "y").
  discriminate.
Defined.

Lemma reachable_do_calls d cs : reachable d → reachable (do_calls d cs).
Proof.
  revert d. induction cs as [|c cs IH]; intros d Hd; simpl; [done|].
  apply IH. destruct c; simpl; by constructor.
Qed.

Lemma reachable_bucket_sorted d c type :
  reachable d → sorted_desc (bucket d c type).
Proof.
  intros Hr. unfold bucket.
  destruct (select_map d c !! type) as [l|] eqn:El; simpl; [|done].
  by eapply reachable_sorted.
Qed.

(** X6: whatever calls of [addEventListener] and [removeEventListener] were
    made on a new dispatcher, no bucket is an empty array, no bucket holds a
    listener twice, and every bucket is in descending order of priority. *)
Theorem X6_registry_invariant self delegate cs useCapture type :
  let d := do_calls (constructor self delegate) cs in
  select_map d useCapture !! type ≠ Some []
  ∧ NoDup (listeners (bucket d useCapture type))
  ∧ sorted_desc (bucket d useCapture type).
Proof.
  intros d.
  assert (reachable d) as Hr by apply reachable_do_calls, reach_new.
  pose proof (reachable_wf d Hr) as Hwf. split_and!.
  - intros El. by destruct (wf_select d useCapture Hwf type [] El).
  - by apply wf_bucket_NoDup.
  - by apply reachable_bucket_sorted.
Qed.

(** X7: whatever calls were made on a new dispatcher, [hasEventListener]
    answers true for a type exactly when a binding is stored for the type in
    one of the two maps, or the type names a member of [Object.prototype]
    (for which it answers true with no binding stored). *)
Theorem X7_has_listener_iff_binding self delegate cs type :
  let d := do_calls (constructor self delegate) cs in
  hasEventListener d type = true
  ↔ (∃ useCapture b, b ∈ bucket d useCapture type)
    ∨ is_Some (Object_prototype type).
Proof.
  intros d.
  assert (wf d) as Hwf by apply reachable_wf, reachable_do_calls, reach_new.
  assert (∀ c, truthy (select_map d c !! type) = true
               ↔ ∃ b, b ∈ bucket d c type) as Hc.
  { intros c. unfold bucket.
    destruct (select_map d c !! type) as [l|] eqn:El; simpl.
    - split; [intros _|done].
      destruct (wf_select d c Hwf type l El) as [Hne _].
      destruct l as [|b l]; [done|]. exists b. by apply elem_of_cons; left.
    - split; [done|]. by intros [b Hb%elem_of_nil]. }
  assert (is_inherited type = true ↔ is_Some (Object_prototype type)) as Hi.
  { unfold is_inherited. destruct (Object_prototype type) as [m|];
      split; intros H; first [done | by eexists | by destruct H as [? ?]]. }
  rewrite (has_select d false), !orb_true_iff, !Hc, Hi. simpl. split.
  - intros [[[b Hb]|[b Hb]]|Hp]; eauto.
  - intros [([|] & b & Hb)|Hp]; eauto.
Qed.

(** ** The bindings of the other listeners *)

Lemma filter_register (l : list EventBin) b :
  filter (fun x => listener x ≠ listener b) (register l b)
  = filter (fun x => listener x ≠ listener b) l.
Proof.
  destruct (decide (listener b ∈ listeners l)) as [Hin|Hn].
  - by rewrite register_dup.
  - destruct (register_fresh_split l b Hn) as (l1 & l2 & -> & -> & _).
    rewrite !filter_app. f_equal. rewrite filter_cons_False; [done|]. tauto.
Qed.

Lemma filter_remove_first (l : list EventBin) fn :
  filter (fun x => listener x ≠ fn) (remove_first l fn)
  = filter (fun x => listener x ≠ fn) l.
Proof.
  induction l as [|a l IH]; simpl; [done|]. case_decide as Ha.
  - rewrite filter_cons_False; [done|]. tauto.
  - by rewrite !filter_cons_True, IH.
Qed.

(** X8: in the bucket they write, [addEventListener] and
    [removeEventListener] leave the bindings of every other listener as they
    are and in the same relative order. *)
Theorem X8_other_bindings_keep_order d type fn thisObj useCapture prio :
  filter (fun x => listener x ≠ fn)
    (bucket (addEventListener d type fn thisObj useCapture prio) useCapture type)
  = filter (fun x => listener x ≠ fn) (bucket d useCapture type)
  ∧ filter (fun x => listener x ≠ fn)
      (bucket (removeEventListener d type fn useCapture) useCapture type)
    = filter (fun x => listener x ≠ fn) (bucket d useCapture type).
Proof.
  rewrite bucket_after_remove. split; [|apply filter_remove_first].
  destruct (reaches_prototype (select_map d useCapture !! type) type) eqn:Er.
  - by rewrite addEventListener_inherited.
  - rewrite bucket_after_add by done.
    apply (filter_register _ (mkBin fn thisObj prio)).
Qed.

(** X9: whatever calls were made on a new dispatcher, for a type that
    names no member of [Object.prototype] a listener that the bucket does
    not hold is registered behind the bindings of strictly higher priority
    and in front of all bindings of the same or of lower priority; the
    bucket is otherwise as it was. *)
Theorem X9_new_binding_position
    self delegate cs type fn thisObj useCapture prio :
  let d := do_calls (constructor self delegate) cs in
  Object_prototype type = None →
  fn ∉ listeners (bucket d useCapture type) →
  ∃ l1 l2,
    bucket d useCapture type = l1 ++ l2
    ∧ select_map (addEventListener d type fn thisObj useCapture prio)
        useCapture !! type
      = Some (l1 ++ mkBin fn thisObj prio :: l2)
    ∧ Forall (fun x => (prio < priority x)%Z) l1
    ∧ Forall (fun y => (priority y <= prio)%Z) l2.
Proof.
  intros d Hplain Hfresh.
  assert (reachable d) as Hr by apply reachable_do_calls, reach_new.
  destruct (register_before_equal_priority (bucket d useCapture type)
              (mkBin fn thisObj prio)
              (reachable_bucket_sorted d useCapture type Hr) Hfresh)
    as (l1 & l2 & Hl & Hreg & Hhi & Hlo).
  exists l1, l2.
  rewrite lookup_after_add, Hreg by (by apply reaches_prototype_own).
  by split_and!.
Qed.

Lemma X9_new_binding_position_witness :
  let d := do_calls (constructor 0 None)
             [CallAdd "x" 1 VNull false 5; CallAdd "x" 2 VNull false 0] in
  ∃ l1 l2,
    bucket d false "x" = l1 ++ l2
    ∧ select_map (addEventListener d "x" 3 VNull false 0) false !! "x"
      = Some (l1 ++ mkBin 3 VNull 0 :: l2)
    ∧ Forall (fun x => (0 < priority x)%Z) l1
    ∧ Forall (fun y => (priority y <= 0)%Z) l2.
Proof.
  apply (X9_new_binding_position 0 None
           [CallAdd "x" 1 VNull false 5; CallAdd "x" 2 VNull false 0]
           "x" 3 VNull false 0).
  - vm_compute. reflexivity.
  - vm_compute. intros H.
    apply elem_of_cons in H as [H|H]; [discriminate H|].
    apply list_elem_of_singleton in H. discriminate H.
Defined.

(** * Further properties of the dispatch *)

Section DispatchFacts.

Context {U : Type}.
Variable call : Fn -> Value -> Event -> U -> Event * U.

(** The listeners applied are an initial segment of the bucket the lookup
    finds. *)
Lemma notify_invoked_prefix type d event u :
  invoked (_notifyListener call type d event u)
  `prefix_of` match type with
              | Some key => bucket d (_eventPhase event =? 1)%Z key
              | None => []
              end.
Proof.
  destruct type as [key|]; [|done]. unfold bucket.
  destruct (select_map d (_eventPhase event =? 1)%Z !! key) as [l|] eqn:El.
  - rewrite (notify_bucket _ _ _ _ _ _ El). simpl.
    pose proof (notify_loop_prefix call l event u) as Hp.
    by destruct (notify_loop call l event u []) as [[e u'] tr].
  - by destruct (notify_no_bucket call _ _ event u El) as (-> & _).
Qed.

Lemma not_in_listeners_prefix (l1 l2 : list EventBin) fn :
  l1 `prefix_of` l2 → fn ∉ listeners l2 → fn ∉ listeners l1.
Proof.
  intros [k ->] Hn Hin. apply Hn. unfold listeners in *.
  rewrite fmap_app, elem_of_app. by left.
Qed.

End DispatchFacts.

(** X10: the dispatch target is fixed at construction, the delegate or else
    the dispatcher itself, and no registration or removal changes it:
    whatever calls were made since, [dispatchEvent] notifies with an event
    whose target and current target are that object and whose three flags
    are clear. *)
Theorem X10_target_fixed_at_construction {U : Type}
    (call : Fn -> Value -> Event -> U -> Event * U)
    self delegate cs type event (u : U) :
  let d := do_calls (constructor self delegate) cs in
  target d = default self delegate
  ∧ dispatchEvent call type d event u
    = _notifyListener call type d
        {| _type := _type event; _bubbles := _bubbles event; data := data event;
           _target := Some (default self delegate);
           _currentTarget := Some (default self delegate);
           _eventPhase := _eventPhase event;
           _isPropagationStopped := false;
           _isPropagationImmediateStopped := false;
           _isDefaultPrevented := false |} u.
Proof.
  intros d.
  assert (target d = default self delegate) as Ht.
  { subst d. assert (∀ d0, target (do_calls d0 cs) = target d0) as Hk.
    { induction cs as [|c cs IH]; intros d0; simpl; [done|].
      rewrite IH. destruct c as [ty fn th uc pr|ty fn uc]; simpl.
      - rewrite addEventListener_register. simpl. case_decide; [done|].
  destruct (reaches_prototype _ _) eqn:Ereach; [done|].
        apply target_store.
      - rewrite removeEventListener_remove_first.
        destruct (select_map d0 uc !! ty) as [l|]; [|done].
        destruct (remove_first l fn); apply target_store. }
    rewrite Hk. by destruct delegate. }
  split; [done|]. rewrite dispatchEvent_prelude. unfold stamped.
  by rewrite Ht.
Qed.

(** X12: after [removeEventListener] for a type and a phase, a
    notification of that phase whose lookup key is that type does not apply
    the listener. *)
Theorem X12_removed_listener_not_notified {U : Type}
    (call : Fn -> Value -> Event -> U -> Event * U)
    d type fn useCapture event (u : U) :
  wf d →
  (_eventPhase event =? 1)%Z = useCapture →
  let d' := removeEventListener d type fn useCapture in
  (fn ∉ listeners (invoked (_notifyListener call (Some type) d' event u)))
  ∧ (fn ∉ listeners (invoked (dispatchEvent call (Some type) d' event u))).
Proof.
  intros Hwf Hphase d'.
  assert (∀ e, _eventPhase e = _eventPhase event →
            fn ∉ listeners (invoked (_notifyListener call (Some type) d' e u)))
    as Hno.
  { intros e He.
    eapply not_in_listeners_prefix; [apply notify_invoked_prefix|].
    rewrite He, Hphase. subst d'. rewrite bucket_after_remove.
    by apply remove_first_gone, wf_bucket_NoDup. }
  split; [by apply Hno|]. rewrite dispatchEvent_prelude. by apply Hno.
Qed.

Lemma X12_removed_listener_not_notified_witness :
  let d := addEventListener
             (addEventListener (constructor 0 None) "x" 8 VNull false 5)
             "x" 7 VNull false 0 in
  let d' := removeEventListener d "x" 7 false in
  (7 ∉ listeners
         (invoked (_notifyListener sample_call (Some "x") d' (sample_event "x" 2) 0)))
  ∧ (7 ∉ listeners
           (invoked (dispatchEvent sample_call (Some "x") d' (sample_event "x" 2) 0))).
Proof.
  apply (X12_removed_listener_not_notified sample_call
           (addEventListener
              (addEventListener (constructor 0 None) "x" 8 VNull false 5)
              "x" 7 VNull false 0)
           "x" 7 false (sample_event "x" 2) 0).
  - apply wf_addEventListener, wf_addEventListener, wf_constructor.
  - vm_compute. reflexivity.
Defined.



(** X16: when [hasEventListener] answers false for a key, a notification
    whose lookup key is that key applies no listener, leaves the event and
    the outside state as they are and returns [true], in every phase. *)
Theorem X16_no_listener_no_effect {U : Type}
    (call : Fn -> Value -> Event -> U -> Event * U)
    key d event (u : U) :
  hasEventListener d key = false →
  _notifyListener call (Some key) d event u
  = mkOutcome (Return true) event u [].
Proof.
  intros Hhas.
  rewrite (has_select d (_eventPhase event =? 1)%Z) in Hhas.
  apply orb_false_iff in Hhas as [Hhas Hinh].
  apply orb_false_iff in Hhas as [Hsel _].
  apply notify_absent.
  - by destruct (select_map d (_eventPhase event =? 1)%Z !! key).
  - unfold is_inherited in Hinh. by destruct (Object_prototype key).
Qed.

Lemma X16_no_listener_no_effect_witness :
  _notifyListener sample_call (Some "y")
    (addEventListener (constructor 0 None) "x" 11 VNull false 0)
    (sample_event "y" 1) 0
  = mkOutcome (Return true) (sample_event "y" 1) 0 [].
Proof.
  apply (X16_no_listener_no_effect sample_call "y"
           (addEventListener (constructor 0 None) "x" 11 VNull false 0)
           (sample_event "y" 1) 0).
  vm_compute. reflexivity.
Defined.

(** * Calls on different buckets *)

Lemma do_call_write d c :
  do_call d c
  = write_bucket d (call_phase c) (call_type c)
      (call_write c (select_map d (call_phase c) !! call_type c)).
Proof.
  destruct c as [type fn thisObj useCapture prio|type fn useCapture]; simpl.
  - rewrite addEventListener_register. simpl. case_decide; [done|].
    by destruct (reaches_prototype _ _).
  - rewrite removeEventListener_remove_first.
    destruct (select_map d useCapture !! type) as [l|]; [|done].
    by destruct (remove_first l fn).
Qed.

Lemma write_lookup_other d c1 t1 w c2 t2 :
  t1 ≠ t2 ∨ c1 ≠ c2 →
  select_map (write_bucket d c1 t1 w) c2 !! t2 = select_map d c2 !! t2.
Proof.
  intros Hdiff. destruct (decide (c1 = c2)) as [->|Hc].
  - destruct Hdiff as [Ht|?]; [|done].
    destruct w; simpl; [done| |]; rewrite select_store.
    + by rewrite lookup_delete_ne.
    + by rewrite lookup_insert_ne.
  - replace c2 with (negb c1) by (by destruct c1, c2).
    destruct w; simpl; [done| |]; by rewrite select_store_other.
Qed.

Lemma write_write_swap d c1 t1 w1 c2 t2 w2 :
  t1 ≠ t2 ∨ c1 ≠ c2 →
  write_bucket (write_bucket d c1 t1 w1) c2 t2 w2
  = write_bucket (write_bucket d c2 t2 w2) c1 t1 w1.
Proof.
  intros Hdiff. destruct (decide (c1 = c2)) as [->|Hc].
  - destruct Hdiff as [Ht|?]; [|done].
    destruct w1, w2; simpl; try done;
      rewrite !select_store, !store_store; f_equal.
    + apply delete_delete.
    + by rewrite delete_insert_ne.
    + by rewrite delete_insert_ne.
    + by apply insert_insert_ne.
  - destruct c1, c2; [done| | |done]; by destruct w1, w2.
Qed.

(** X17: two calls of [addEventListener] or [removeEventListener] that
    differ in the type or in [useCapture] can be made in either order: the
    dispatcher ends in the same state. *)
Theorem X17_calls_on_different_buckets_commute d c1 c2 :
  call_type c1 ≠ call_type c2 ∨ call_phase c1 ≠ call_phase c2 →
  do_call (do_call d c1) c2 = do_call (do_call d c2) c1.
Proof.
  intros Hdiff.
  rewrite (do_call_write (do_call d c1) c2), (do_call_write (do_call d c2) c1).
  rewrite (do_call_write d c1), (do_call_write d c2).
  rewrite !write_lookup_other; [by apply write_write_swap| |done].
  destruct Hdiff; [left|right]; congruence.
Qed.

Lemma X17_calls_on_different_buckets_commute_witness :
  let d := addEventListener (constructor 0 None) "x" 7 VNull false 0 in
  do_call (do_call d (CallRemove "x" 7 false)) (CallAdd "x" 7 VNull true 3)
  = do_call (do_call d (CallAdd "x" 7 VNull true 3)) (CallRemove "x" 7 false).
Proof.
  apply (X17_calls_on_different_buckets_commute
           (addEventListener (constructor 0 None) "x" 7 VNull false 0)
           (CallRemove "x" 7 false) (CallAdd "x" 7 VNull true 3)).
  right. simpl. discriminate.
Defined.

(** * The shared event between two uses *)

(** X18: [dispatchEventWith] overwrites the type, [bubbles] and [data] of
    the shared event, and [dispatchEvent] overwrites its flags and targets:
    of the state an earlier use left in the shared event only the phase
    reaches the listeners.  Two states of the shared event with the same
    phase give the same outcome. *)
Theorem X18_shared_event_state_does_not_leak {U : Type}
    (call : Fn -> Value -> Event -> U -> Event * U)
    type d type_ bubbles data_ shared1 shared2 (u : U) :
  _eventPhase shared1 = _eventPhase shared2 →
  dispatchEventWith call type d type_ bubbles data_ shared1 u
  = dispatchEventWith call type d type_ bubbles data_ shared2 u.
Proof.
  intros Hphase. unfold dispatchEventWith.
  rewrite !dispatchEvent_prelude.
  replace (stamped d (set_data (set_bubbles (set_type shared1 type_) bubbles) data_))
    with (stamped d (set_data (set_bubbles (set_type shared2 type_) bubbles) data_));
    [done|].
  unfold stamped, _setCurrentTarget, set_target, _reset, set_data, set_bubbles,
    set_type. simpl. by rewrite Hphase.
Qed.

Lemma X18_shared_event_state_does_not_leak_witness :
  dispatchEventWith sample_call (Some "x")
    (addEventListener (constructor 0 None) "x" 11 VNull false 0)
    "x" true (VNum 1)
    (stopImmediatePropagation (preventDefault (sample_event "old" 2))) 0
  = dispatchEventWith sample_call (Some "x")
      (addEventListener (constructor 0 None) "x" 11 VNull false 0)
      "x" true (VNum 1) (sample_event "" 2) 0.
Proof.
  apply (X18_shared_event_state_does_not_leak sample_call (Some "x")
           (addEventListener (constructor 0 None) "x" 11 VNull false 0)
           "x" true (VNum 1)
           (stopImmediatePropagation (preventDefault (sample_event "old" 2)))
           (sample_event "" 2) 0).
  reflexivity.
Defined.
